(** * protongdb: launching a Proton application and attaching GDB to it

    A shallow embedding of [protongdb.py].  The script is one long [main]
    function; the embedding follows it statement by statement, threading an
    explicit world (standard input, clock, process table, file system and
    the log of external actions) through a small state-and-exception monad.

    Text is modelled by [string] (sequences of 8-bit characters), which
    covers the ASCII inputs the program reads and writes. *)

From Stdlib Require Import ZArith QArith Ascii String List Lia.
From Stdlib Require Import Decimal DecimalString DecimalPos.
From stdpp Require Import base option list gmap strings.

Local Open Scope string_scope.
Local Open Scope Z_scope.

(** ** Python values used as conditions *)

(** Truth value of an [Optional[str]]: [None] and [''] are false. *)
Definition truthy_str (y : option string) : bool :=
  match y with
  | Some EmptyString => false
  | Some _ => true
  | None => false
  end.

(** Truth value of an [Optional[int]]: [None] and [0] are false. *)
Definition truthy_int (p : option Z) : bool :=
  match p with
  | Some n => negb (n =? 0)
  | None => false
  end.

(** ** String helpers of the script (lines 47-57) *)

(** [y] is the result of [dict.get], hence optional; the conditional
    expression returns [x] itself when [y] is false. *)
Definition prepend_args (x : string) (y : option string) (delim : string) : string :=
  match y with
  | Some y' => if truthy_str y then y' +:+ delim +:+ x else x
  | None => x
  end.

Definition append_args (x : string) (y : option string) (delim : string) : string :=
  match y with
  | Some y' => if truthy_str y then x +:+ delim +:+ y' else x
  | None => x
  end.

Fixpoint list_to_space_str (lst : list string) : string :=
  match lst with
  | [] => ""
  | [s] => s
  | s :: rest => s +:+ " " +:+ list_to_space_str rest
  end.

(** ** The environment dictionary (lines 186-200) *)

Module Env.

(** [env_vars[k] = v] *)
Definition setitem (k v : string) (env : gmap string string) : gmap string string :=
  <[k := v]> env.

(** [env_vars.setdefault(k, v)]: stores [v] only when [k] is not a key. *)
Definition setdefault (k v : string) (env : gmap string string) : gmap string string :=
  match env !! k with
  | Some _ => env
  | None => <[k := v]> env
  end.

(** The statement shape of lines 187 and 196:
    [env_vars[k] = append_args(v, env_vars.get(k), d)]. *)
Definition append_path (k v d : string) (env : gmap string string) : gmap string string :=
  setitem k (append_args v (env !! k) d) env.

(** The statement shape of lines 189 and 199:
    [env_vars[k] = prepend_args(v, env_vars.get(k), d)]. *)
Definition prepend_path (k v d : string) (env : gmap string string) : gmap string string :=
  setitem k (prepend_args v (env !! k) d) env.

End Env.

(** ** Integers and text *)

Module PyText.

(** [str(n)] for an integer [n]: decimal digits, ['-'] for negatives. *)
Definition str_of_int (n : Z) : string :=
  DecimalString.NilZero.string_of_int (Z.to_int n).

Definition nat_of_char (c : ascii) : nat := nat_of_ascii c.

(** White space skipped by [int()] around its argument, a [bytes] or an
    ASCII [str] alike (space, \t, \n, \v, \f, \r). *)
Definition is_space_bytes (c : ascii) : bool :=
  let n := nat_of_char c in
  (Nat.eqb n 32 || (Nat.leb 9 n && Nat.leb n 13))%bool.

(** White space for [str.split()]: the above and the separators
    \x1c..\x1f, which [int()] does not skip. *)
Definition is_space_str (c : ascii) : bool :=
  let n := nat_of_char c in
  (is_space_bytes c || (Nat.leb 28 n && Nat.leb n 31))%bool.

Definition digit_of (c : ascii) : option (Decimal.uint -> Decimal.uint) :=
  match c with
  | "0" => Some Decimal.D0
  | "1" => Some Decimal.D1
  | "2" => Some Decimal.D2
  | "3" => Some Decimal.D3
  | "4" => Some Decimal.D4
  | "5" => Some Decimal.D5
  | "6" => Some Decimal.D6
  | "7" => Some Decimal.D7
  | "8" => Some Decimal.D8
  | "9" => Some Decimal.D9
  | _ => None
  end%char.

Definition is_digit (c : ascii) : bool :=
  match digit_of c with Some _ => true | None => false end.

Fixpoint lstrip (sp : ascii -> bool) (s : string) : string :=
  match s with
  | String c r => if sp c then lstrip sp r else s
  | EmptyString => EmptyString
  end.

Fixpoint all_space (sp : ascii -> bool) (s : string) : bool :=
  match s with
  | String c r => (sp c && all_space sp r)%bool
  | EmptyString => true
  end.

(** The longest prefix of decimal digits, a single underscore being
    allowed between two digits; returns the digits and what follows. *)
Fixpoint scan_digits (s : string) : Decimal.uint * string :=
  match s with
  | String c r =>
      match digit_of c with
      | Some d =>
          let '(u, rest) :=
            match r with
            | String c1 r' =>
                if Ascii.eqb c1 "_" then
                  match r' with
                  | String c2 _ =>
                      if is_digit c2 then scan_digits r' else (Decimal.Nil, r)
                  | EmptyString => (Decimal.Nil, r)
                  end
                else scan_digits r
            | EmptyString => (Decimal.Nil, r)
            end in
          (d u, rest)
      | None => (Decimal.Nil, s)
      end
  | EmptyString => (Decimal.Nil, EmptyString)
  end.

(** A string can follow printed digits without being read as part of
    the number when it does not start with a digit or an underscore. *)
Definition stops_number (r : string) : Prop :=
  match r with
  | String c _ => is_digit c = false ∧ c ≠ "_"%char
  | EmptyString => True
  end.

(** An optional sign in front of the digits. *)
Definition split_sign (s : string) : bool * string :=
  match s with
  | String c r =>
      if Ascii.eqb c "-" then (true, r)
      else if Ascii.eqb c "+" then (false, r)
      else (false, s)
  | EmptyString => (false, s)
  end.

(** [int(s)] in base ten: [None] stands for [ValueError].  Surrounding
    white space is skipped, one sign is accepted, at least one digit is
    required and nothing but white space may follow the digits. *)
Definition int_of (sp : ascii -> bool) (s : string) : option Z :=
  let '(neg, s2) := split_sign (lstrip sp s) in
  match scan_digits s2 with
  | (Decimal.Nil, _) => None
  | (u, rest) =>
      if all_space sp rest
      then Some (if neg : bool then - Z.of_uint u else Z.of_uint u)
      else None
  end.

Definition int_of_str : string -> option Z := int_of is_space_bytes.
Definition int_of_bytes : string -> option Z := int_of is_space_bytes.

(** [s.upper()] on ASCII text. *)
Definition upper_char (c : ascii) : ascii :=
  let n := nat_of_char c in
  if (Nat.leb 97 n && Nat.leb n 122)%bool then ascii_of_nat (n - 32) else c.

Fixpoint upper (s : string) : string :=
  match s with
  | String c r => String (upper_char c) (upper r)
  | EmptyString => EmptyString
  end.

(** [s[:n]] *)
Fixpoint take (n : nat) (s : string) : string :=
  match n, s with
  | S n', String c r => String c (take n' r)
  | _, _ => EmptyString
  end.

Fixpoint has_slash (p : string) : bool :=
  match p with
  | String c r => (Ascii.eqb c "/" || has_slash r)%bool
  | EmptyString => false
  end.

(** [os.path.basename(p)]: what follows the last ['/']. *)
Fixpoint basename (p : string) : string :=
  match p with
  | String c r =>
      if (Ascii.eqb c "/" || has_slash r)%bool then basename r else p
  | EmptyString => EmptyString
  end.

End PyText.
Import PyText.

(** ** The world the script runs in *)

(** Exceptions that can leave a statement of [main]. *)
Inductive Exn : Type :=
| ValueError
| EOFError
| URLError
| TypeError
| IndexError
| OSError
| CalledProcessError.

(** How running a command line ends: the exit status of the process, or
    the exception raised when it cannot be started or waited for. *)
Inductive ExecOutcome : Type :=
| Exits (code : Z)
| Raises (e : Exn).

(** External actions, logged in the order they are performed. *)
Inductive Event : Type :=
| Fetch (url dest : string)
| WriteFile (path : string)
| Popen (argv : list string) (cwd : string) (env : gmap string string)
| CheckOutput (argv : list string)
| Call (argv : list string)
| Remove (path : string)
| LogError (msg : string).

Record World : Type := mkWorld {
  (** lines [input()] is going to read *)
  stdin : list string;
  (** [os.environ] *)
  environ : gmap string string;
  (** body served at the helper script's address; [None]: the fetch fails *)
  remote : option string;
  (** how running each command line ends; [pidof] apart, whose start is
      told by [pidof_missing] and whose replies by [procs] *)
  exec : list string -> ExecOutcome;
  (** successive readings of [time.time()], in seconds; once they are used
      up the clock is past every deadline *)
  clock : list Q;
  (** pids of the processes matching the looked-up name, at each
      successive [pidof]; once used up, no process matches *)
  procs : list (list positive);
  (** files of interest under [/tmp], with their content *)
  files : gmap string string;
  (** what has been done so far *)
  trace : list Event;
  (** what a transfer that breaks off has already written to its
      destination; [None]: the fetch fails before the destination is
      opened *)
  partial : option string;
  (** [pidof] is not installed: starting it raises [OSError] *)
  pidof_missing : bool
}.

Definition set_stdin (l : list string) (w : World) : World :=
  mkWorld l (environ w) (remote w) (exec w) (clock w) (procs w) (files w) (trace w)
          (partial w) (pidof_missing w).
Definition set_clock (c : list Q) (w : World) : World :=
  mkWorld (stdin w) (environ w) (remote w) (exec w) c (procs w) (files w) (trace w)
          (partial w) (pidof_missing w).
Definition set_procs (p : list (list positive)) (w : World) : World :=
  mkWorld (stdin w) (environ w) (remote w) (exec w) (clock w) p (files w) (trace w)
          (partial w) (pidof_missing w).
Definition set_files (f : gmap string string) (w : World) : World :=
  mkWorld (stdin w) (environ w) (remote w) (exec w) (clock w) (procs w) f (trace w)
          (partial w) (pidof_missing w).
Definition log (e : Event) (w : World) : World :=
  mkWorld (stdin w) (environ w) (remote w) (exec w) (clock w) (procs w) (files w)
          (trace w ++ [e]) (partial w) (pidof_missing w).

(** ** Statements: state passing with [return] and exceptions *)

(** What a statement of [main] leaves behind: a value, the decision to
    [return] from [main], or a propagating exception. *)
Inductive Res (A : Type) : Type :=
| Val (a : A)
| Ret
| Exc (e : Exn).
Arguments Val {A} a.
Arguments Ret {A}.
Arguments Exc {A} e.

Definition M (A : Type) : Type := World -> Res A * World.

Definition pure {A} (a : A) : M A := fun w => (Val a, w).
Definition return_ {A} : M A := fun w => (Ret, w).
Definition raise {A} (e : Exn) : M A := fun w => (Exc e, w).

Definition bind {A B} (m : M A) (k : A -> M B) : M B :=
  fun w =>
    match m w with
    | (Val a, w') => k a w'
    | (Ret, w') => (Ret, w')
    | (Exc e, w') => (Exc e, w')
    end.

Declare Scope stmt_scope.
Delimit Scope stmt_scope with stmt.
Notation "'let*' x := m 'in' k" := (bind m (fun x => k))
  (at level 10, x name, m at level 100, k at level 200,
   format "'[v' 'let*'  x  :=  m  'in' '/' k ']'") : stmt_scope.
Notation "m ;; k" := (bind m (fun _ => k))
  (at level 100, k at level 200, right associativity) : stmt_scope.
Local Open Scope stmt_scope.

(** *** Primitive statements *)

(** [input(prompt)] *)
Definition input : M string := fun w =>
  match stdin w with
  | line :: rest => (Val line, set_stdin rest w)
  | [] => (Exc EOFError, w)
  end.

(** [logger.error(msg)] *)
Definition logger_error (msg : string) : M unit := fun w =>
  (Val tt, log (LogError msg) w).

(** [urllib.request.urlretrieve(url, dest)]: the destination is opened
    for writing once the server has answered, so a transfer that breaks
    off raises after leaving what it received in the destination. *)
Definition urlretrieve (url dest : string) : M unit := fun w =>
  let w1 := log (Fetch url dest) w in
  match remote w with
  | Some body => (Val tt, set_files (<[dest := body]> (files w1)) w1)
  | None =>
      match partial w with
      | Some received => (Exc URLError, set_files (<[dest := received]> (files w1)) w1)
      | None => (Exc URLError, w1)
      end
  end.

(** [with open(path, 'w') as f: ... f.write(...)] *)
Definition write_file (path content : string) : M unit := fun w =>
  let w1 := log (WriteFile path) w in
  (Val tt, set_files (<[path := content]> (files w1)) w1).

(** [os.remove(path)] *)
Definition os_remove (path : string) : M unit := fun w =>
  let w1 := log (Remove path) w in
  match files w !! path with
  | Some _ => (Val tt, set_files (delete path (files w1)) w1)
  | None => (Exc OSError, w1)
  end.

(** [subprocess.Popen(argv, stdin=DEVNULL, close_fds=True, cwd=...,
    env=...)]: returns once the process is created, or raises when it
    cannot be. *)
Definition subprocess_Popen (argv : list string) (cwd : string)
    (env : gmap string string) : M unit := fun w =>
  let w1 := log (Popen argv cwd env) w in
  match exec w argv with
  | Exits _ => (Val tt, w1)
  | Raises e => (Exc e, w1)
  end.

(** [subprocess.call(argv)]: waits and returns the exit status. *)
Definition subprocess_call (argv : list string) : M Z := fun w =>
  let w1 := log (Call argv) w in
  match exec w argv with
  | Exits code => (Val code, w1)
  | Raises e => (Exc e, w1)
  end.

(** What [pidof] prints for the matching pids. *)
Fixpoint pids_line (pids : list positive) : string :=
  match pids with
  | [] => String (ascii_of_nat 10) EmptyString
  | [p] => str_of_int (Z.pos p) +:+ String (ascii_of_nat 10) EmptyString
  | p :: rest => str_of_int (Z.pos p) +:+ " " +:+ pids_line rest
  end.

(** [subprocess.check_output(["pidof", name])]: when [pidof] cannot be
    started the call raises [OSError] and no lookup takes place;
    otherwise the lookup is logged, and the exit status of [pidof] is
    non-zero when no process matches. *)
Definition check_output_pidof (name : string) : M string := fun w =>
  if pidof_missing w then (Exc OSError, w)
  else
    let w1 := log (CheckOutput ["pidof"; name]) w in
    match procs w with
    | [] => (Exc CalledProcessError, w1)
    | [] :: later => (Exc CalledProcessError, set_procs later w1)
    | pids :: later => (Val (pids_line pids), set_procs later w1)
    end.

(** An instant read from the clock, or one later than any deadline. *)
Inductive Instant : Type :=
| At (t : Q)
| Beyond.

(** [i + seconds]; the sum is exact, where the floating-point sum of the
    script is rounded. *)
Definition later_by (i : Instant) (seconds : Q) : Instant :=
  match i with
  | At t => At (Qplus t seconds)
  | Beyond => Beyond
  end.

(** [i < j] on instants. *)
Definition before (i j : Instant) : bool :=
  match i, j with
  | At t, At u => negb (Qle_bool u t)
  | At _, Beyond => true
  | Beyond, _ => false
  end.

(** [time.time()] *)
Definition time_time : M Instant := fun w =>
  match clock w with
  | t :: later => (Val (At t), set_clock later w)
  | [] => (Val Beyond, w)
  end.

(** ** Data handed over by the catalog (lines 88-125)

    Lines 66-125 parse the command line and query [protontricks]; each
    of their failures logs an error and returns before anything below
    is done.  What follows starts from the values they produce. *)

(** A Steam application as [protontricks] describes it. *)
Record SteamApp : Type := mkSteamApp {
  name : string;
  appid : Z;
  install_path : string;
  prefix_path : string
}.

(** One tuple built by [get_launch_executable]. *)
Record LaunchInfo : Type := mkLaunchInfo {
  description : option string;
  working_dir : string;
  launch_executable : string;
  beta_key : option string;
  app_config_args : list string
}.

(** The values [main] has in hand at line 126. *)
Record Catalog : Type := mkCatalog {
  args_appid : Z;
  user_app_args : list string;
  steam_path : string;
  game_app : SteamApp;
  proton_app : SteamApp;
  app_infos : list LaunchInfo
}.

(** ** [safe_cast] (lines 59-63) *)

(** A conversion either raises or returns. *)
Definition safe_cast {A B} (val : A) (to_type : A -> Exn + B)
    (default : option B) : M (option B) :=
  match to_type val with
  | inr b => pure (Some b)
  | inl ValueError => pure default
  | inl TypeError => pure default
  | inl e => raise e
  end.

(** [int] applied to a [str] *)
Definition py_int (s : string) : Exn + Z :=
  match int_of_str s with
  | Some n => inr n
  | None => inl ValueError
  end.

(** ** [main] from line 126 on *)

Definition winereload_url : string :=
  "https://gist.githubusercontent.com/rbernon/cdbdc1b0e892f91e7449fcf3dda80bb7/raw/d8cf549bf751d99ed0fe515e36f99ff5c01b7287/WineReload.py".
Definition winereload_path : string := "/tmp/winereload.py".
Definition script_path : string := "/tmp/.protongdb_args".

Definition gdb_commands : list string :=
  [ "set confirm off";
    "set pagination off";
    "handle SIGUSR1 noprint nostop";
    "handle SIGSYS noprint nostop";
    "source /tmp/winereload.py" ].

Definition newline : string := String (ascii_of_nat 10) EmptyString.

(** What lines 164-166 leave in the file: each command and a newline. *)
Fixpoint script_text (commands : list string) : string :=
  match commands with
  | [] => ""
  | c :: rest => c +:+ newline +:+ script_text rest
  end.

(** [config_idx not in range(0, n)] is false *)
Definition in_range (i : Z) (n : nat) : bool :=
  ((0 <=? i) && (i <? Z.of_nat n))%bool.

(** Lines 132-147.  The listing printed before the prompt goes to
    standard output and is left out. *)
Definition select_configuration (infos : list LaunchInfo) : M LaunchInfo :=
  match infos with
  | [only] => pure only
  | _ =>
      let* line := input in
      let* config_idx := safe_cast line py_int None in
      match config_idx with
      | None => logger_error "Invalid app configuration." ;; return_
      | Some i =>
          if in_range i (length infos)
          then match infos !! Z.to_nat i with
               | Some info => pure info
               | None => raise IndexError
               end
          else logger_error "Invalid app configuration." ;; return_
      end
  end.

(** Lines 186-200. *)
Definition compose_env (c : Catalog) (base : gmap string string) : gmap string string :=
  let proton := install_path (proton_app c) in
  let game := install_path (game_app c) in
  let prefix := prefix_path (game_app c) in
  let id := str_of_int (args_appid c) in
  let e := base in
  let e := Env.append_path "PATH" (proton +:+ "/files/bin") ":" e in
  let e := Env.setdefault "WINEDEBUG" "-all" e in
  let e := Env.prepend_path "WINEDLLPATH"
             (proton +:+ "/files/lib64/wine:" +:+ proton +:+ "/files/lib/wine") ":" e in
  let e := Env.setdefault "LD_LIBRARY_PATH"
             (append_args
                (proton +:+ "/files/lib64/:" +:+ proton +:+ "/files/lib/:" +:+ game)
                (e !! "LD_LIBRARY_PATH") ":") e in
  let e := Env.setdefault "WINEPREFIX" prefix e in
  let e := Env.setdefault "WINEESYNC" "1" e in
  let e := Env.setdefault "WINEFSYNC" "1" e in
  let e := Env.setdefault "SteamGameId" id e in
  let e := Env.setdefault "SteamAppId" id e in
  let e := Env.append_path "WINEDLLOVERRIDES"
             "steam.exe=b;dotnetfx35.exe=b;dxvk_config=n;d3d11=n;d3d10=n;d3d10core=n;d3d10_1=n;d3d9=n;dxgi=n"
             ";" e in
  let e := Env.setdefault "STEAM_COMPAT_CLIENT_INSTALL_PATH" (steam_path c) e in
  let e := Env.setdefault "WINE_LARGE_ADDRESS_AWARE" "1" e in
  let e := Env.prepend_path "GST_PLUGIN_SYSTEM_PATH_1_0"
             (proton +:+ "/files/lib64/gstreamer-1.0:" +:+ proton +:+ "/files/lib/gstreamer-1.0")
             ":" e in
  let e := Env.setdefault "WINE_GST_REGISTRY_DIR" (prefix +:+ "/gstreamer-1.0/") e in
  e.

(** The loop of lines 211-215, one clock reading per test of its
    condition; [readings] is the clock of the world it runs in. *)
Fixpoint poll (process_name : string) (timeout : Instant) (pid : option Z)
    (readings : list Q) : M (option Z) := fun w =>
  if truthy_int pid then (Val pid, w)
  else
    match readings with
    | [] => (Val pid, w)
    | t :: later =>
        let w0 := set_clock later w in
        if before (At t) timeout then
          match check_output_pidof process_name w0 with
          | (Val out, w1) =>
              match int_of_bytes out with
              | Some n => poll process_name timeout (Some n) later w1
              | None => (Exc ValueError, w1)
              end
          | (Exc CalledProcessError, w1) => poll process_name timeout None later w1
          | (Exc e, w1) => (Exc e, w1)
          | (Ret, w1) => (Ret, w1)
          end
        else (Val pid, w0)
    end.

(** The message of line 218. *)
Definition not_found_report (process_name : string) : string :=
  "Couldn't find pid to attach for " +:+ process_name.

(** Lines 207-219: the pid to attach to, or the error report and
    [return]. *)
Definition resolve_pid (executable : string) : M Z :=
  let process_name := take 15 (basename executable) in
  let* now := time_time in
  let timeout := later_by now 3 in
  let* pid := (fun w => poll process_name timeout None (clock w) w) in
  match pid with
  | Some p =>
      if truthy_int pid then pure p
      else logger_error (not_found_report process_name) ;; return_
  | None => logger_error (not_found_report process_name) ;; return_
  end.

(** Lines 221-223. *)
Definition attach_debugger (pid : Z) : M unit :=
  subprocess_call ["gdb"; "-x"; script_path; "-p"; str_of_int pid] ;;
  subprocess_call ["kill"; "-9"; str_of_int pid] ;;
  os_remove script_path.

(** What [main] launches, once the configuration is chosen. *)
Record LaunchTarget : Type := mkLaunchTarget {
  executable_path : string;
  target_working_dir : string;
  app_args : list string
}.

(** The command line of line 202. *)
Definition wine_command (c : Catalog) (target : LaunchTarget) : list string :=
  [install_path (proton_app c) +:+ "/files/bin/wine"; "steam.exe";
   executable_path target] ++ app_args target.

Section Orchestrator.

(** [a / b] on [pathlib] paths, read back with [str()]. *)
Variable joinpath : string -> string -> string.

(** Lines 168-170. *)
Definition build_target (c : Catalog) (info : LaunchInfo) : LaunchTarget :=
  let install := install_path (game_app c) in
  {| executable_path := joinpath install (launch_executable info);
     target_working_dir :=
       if truthy_str (Some (working_dir info))
       then joinpath install (working_dir info)
       else install;
     app_args := app_config_args info ++ user_app_args c |}.

(** Lines 126-170: choose the configuration, fetch the helper script,
    write the debugger script and build the target.  The summary printed
    at lines 172-181 goes to standard output and is left out. *)
Definition prepare (c : Catalog) : M (LaunchInfo * LaunchTarget) :=
  match app_infos c with
  | [] =>
      logger_error ("Cannot find launch executable from "
                    +:+ joinpath (joinpath (steam_path c) "appcache") "appinfo.vdf") ;;
      return_
  | _ =>
      let* info := select_configuration (app_infos c) in
      urlretrieve winereload_url winereload_path ;;
      write_file script_path (script_text gdb_commands) ;;
      pure (info, build_target c info)
  end.

(** [len(confirm) > 0 and confirm[0] == 'N'] *)
Definition declined (confirm : string) : bool :=
  match confirm with
  | String c _ => Ascii.eqb c "N"
  | EmptyString => false
  end.

(** Lines 186-223. *)
Definition launch_and_debug (c : Catalog) (info : LaunchInfo)
    (target : LaunchTarget) : M unit :=
  let* env_vars := (fun w => (Val (compose_env c (environ w)), w)) in
  subprocess_Popen (wine_command c target) (target_working_dir target) env_vars ;;
  let* pid := resolve_pid (launch_executable info) in
  attach_debugger pid.

Definition main (c : Catalog) : M unit :=
  let* chosen := prepare c in
  let* confirm := input in
  if declined (upper confirm) then return_
  else launch_and_debug c (fst chosen) (snd chosen).

End Orchestrator.

(** ** Reading a run *)

(** Command lines handed to [subprocess.call], in order. *)
Definition calls (tr : list Event) : list (list string) :=
  omap (fun e => match e with Call argv => Some argv | _ => None end) tr.

(** Command lines handed to [subprocess.Popen], in order. *)
Definition popens (tr : list Event) : list (list string) :=
  omap (fun e => match e with Popen argv _ _ => Some argv | _ => None end) tr.

(** Process-table lookups, in order. *)
Definition lookups (tr : list Event) : list (list string) :=
  omap (fun e => match e with CheckOutput argv => Some argv | _ => None end) tr.

(** Addresses fetched, in order. *)
Definition fetches (tr : list Event) : list string :=
  omap (fun e => match e with Fetch url _ => Some url | _ => None end) tr.

(** Files written, in order. *)
Definition writes (tr : list Event) : list string :=
  omap (fun e => match e with WriteFile path => Some path | _ => None end) tr.

(** Files removed, in order. *)
Definition removes (tr : list Event) : list string :=
  omap (fun e => match e with Remove path => Some path | _ => None end) tr.

(** Error reports, in order. *)
Definition errors (tr : list Event) : list string :=
  omap (fun e => match e with LogError msg => Some msg | _ => None end) tr.

(** The process-table states met by the lookups the clock allows before
    [timeout]: one per reading that is still before it. *)
Fixpoint polled (timeout : Instant) (readings : list Q)
    (states : list (list positive)) : list (list positive) :=
  match readings with
  | [] => []
  | t :: later =>
      if before (At t) timeout
      then hd [] states :: polled timeout later (tl states)
      else []
  end.

(** Position and content of the first state with a matching process. *)
Fixpoint first_match (seen : list (list positive)) : option (nat * list positive) :=
  match seen with
  | [] => None
  | [] :: rest => prod_map S id <$> first_match rest
  | pids :: _ => Some (O, pids)
  end.

(** The states polled by [resolve_pid] when started in [w]: none when
    [pidof] cannot be started, as no lookup takes place then. *)
Definition polled_in (w : World) : list (list positive) :=
  match clock w with
  | [] => []
  | t0 :: readings =>
      if pidof_missing w then []
      else polled (later_by (At t0) 3) readings (procs w)
  end.


(** The first lookup of [resolve_pid] started in [w] is attempted, its
    clock reading being before the deadline, and [pidof] cannot be
    started. *)
Definition lookup_refused (w : World) : bool :=
  (pidof_missing w
   && match clock w with
      | t0 :: t1 :: _ => before (At t1) (later_by (At t0) 3)
      | _ => false
      end)%bool.

(** The world once the helper script, of content [body], has been
    fetched and the debugger script written (lines 151-166). *)
Definition fetched_and_written (body : string) (w : World) : World :=
  set_files (<[script_path := script_text gdb_commands]>
               (<[winereload_path := body]> (files w)))
    (log (WriteFile script_path) (log (Fetch winereload_url winereload_path) w)).

(** What became of the debugger script in a run [r] started in [w] with
    the script in place: an outcome other than normal completion leaves
    it there, normal completion has removed it. *)
Definition script_fate (w : World) (r : Res unit * World) : Prop :=
  match r.1 with
  | Val _ =>
      removes (trace r.2) = (removes (trace w) ++ [script_path])%list
      ∧ files r.2 !! script_path = None
  | _ =>
      removes (trace r.2) = removes (trace w)
      ∧ files r.2 !! script_path = Some (script_text gdb_commands)
  end.

(** The world after [n] process-table lookups for [process_name] that
    used up [used] clock readings. *)
Definition after_lookups (n used : nat) (process_name : string) (w : World) : World :=
  mkWorld (stdin w) (environ w) (remote w) (exec w)
          (drop used (clock w)) (drop n (procs w)) (files w)
          (trace w ++ replicate n (CheckOutput ["pidof"; process_name]))
          (partial w) (pidof_missing w).

(** ** The launch entries of the application metadata (lines 27-57) *)

Module Text.

Fixpoint has_backslash (p : string) : bool :=
  match p with
  | String c r => (Ascii.eqb c "\"%char || has_backslash r)%bool
  | EmptyString => false
  end.

(** [path.replace('\\', '/')] *)
Fixpoint backslash_to_slash (p : string) : string :=
  match p with
  | String c r =>
      String (if Ascii.eqb c "\"%char then "/"%char else c) (backslash_to_slash r)
  | EmptyString => EmptyString
  end.

(** [s.split()]: the maximal runs of characters that are not white
    space, in order. *)
Fixpoint split (s : string) : list string :=
  match s with
  | String c r =>
      if is_space_str c then split r
      else
        match r with
        | String c' _ =>
            if is_space_str c' then String c EmptyString :: split r
            else
              match split r with
              | word :: others => String c word :: others
              | [] => [String c EmptyString]
              end
        | EmptyString => [String c EmptyString]
        end
  | EmptyString => []
  end.

(** [p] is a prefix of [s]. *)
Fixpoint starts_with (p s : string) : bool :=
  match p, s with
  | EmptyString, _ => true
  | String a p', String b s' => (Ascii.eqb a b && starts_with p' s')%bool
  | String _ _, EmptyString => false
  end.

(** [needle in hay] on two strings. *)
Fixpoint is_infix (needle hay : string) : bool :=
  (starts_with needle hay
   || match hay with
      | String _ r => is_infix needle r
      | EmptyString => false
      end)%bool.

(** A string as [split] returns them: not empty and free of white
    space. *)
Fixpoint is_word_from (s : string) : bool :=
  match s with
  | String c r => (negb (is_space_str c) && is_word_from r)%bool
  | EmptyString => true
  end.

Definition is_word (s : string) : bool :=
  match s with
  | String _ _ => is_word_from s
  | EmptyString => false
  end.

End Text.

(** Lines 27-30; [path] comes from [dict.get] or a subscript. *)
Definition normalize_path (path : option string) : string :=
  match path with
  | Some p => if truthy_str path then Text.backslash_to_slash p else ""
  | None => ""
  end.

(** Lines 56-57; the [prefix] argument is not used by the body. *)
Definition list_to_space_str_prefix (lst : list string) (prefix : string) : string :=
  match lst with
  | [] => ""
  | _ => " " +:+ list_to_space_str lst
  end.

(** [launch_info["config"]], with the keys the script looks at. *)
Record LaunchConfig : Type := mkLaunchConfig {
  oslist : option string;
  betakey : option string
}.

(** One value of the [launch] dictionary, with the keys the script looks
    at; [None] is a key that is absent. *)
Record LaunchEntry : Type := mkLaunchEntry {
  entry_description : option string;
  entry_workingdir : option string;
  entry_executable : option string;
  entry_config : option LaunchConfig;
  entry_arguments : option string
}.

(** One section of [appinfo.vdf]: [app["appinfo"]["appid"]] and the
    values of [app["appinfo"]["config"]["launch"]] in their order, [None]
    when the application has no such dictionary. *)
Record AppSection : Type := mkAppSection {
  section_appid : Z;
  section_launch : option (list LaunchEntry)
}.

(** The condition of line 38. *)
Definition os_allowed (e : LaunchEntry) : bool :=
  match entry_config e with
  | Some cfg =>
      match oslist cfg with
      | Some os => Text.is_infix "windows" os
      | None => true
      end
  | None => true
  end.

(** Lines 39-44 for one entry; [None] is the [KeyError] of
    [launch_info["executable"]]. *)
Definition launch_tuple (e : LaunchEntry) : option LaunchInfo :=
  let beta :=
    match entry_config e with
    | Some cfg => betakey cfg
    | None => None
    end in
  let arguments :=
    match entry_arguments e with
    | Some a => if truthy_str (Some a) then Text.split a else []
    | None => []
    end in
  match entry_executable e with
  | Some exe =>
      Some {| description := entry_description e;
              working_dir := normalize_path (entry_workingdir e);
              launch_executable := normalize_path (Some exe);
              beta_key := beta;
              app_config_args := arguments |}
  | None => None
  end.

(** The inner loop of lines 37-44. *)
Fixpoint launch_tuples (entries : list LaunchEntry) : option (list LaunchInfo) :=
  match entries with
  | [] => Some []
  | e :: rest =>
      if os_allowed e then
        match launch_tuple e with
        | Some t =>
            match launch_tuples rest with
            | Some ts => Some (t :: ts)
            | None => None
            end
        | None => None
        end
      else launch_tuples rest
  end.

(** Lines 32-45; [None] is a [KeyError]. *)
Fixpoint get_launch_executable (id : Z) (appinfo : list AppSection)
    : option (list LaunchInfo) :=
  match appinfo with
  | [] => Some []
  | app :: rest =>
      if section_appid app =? id then
        match section_launch app with
        | Some entries =>
            match launch_tuples entries with
            | Some ts =>
                match get_launch_executable id rest with
                | Some more => Some (ts ++ more)%list
                | None => None
                end
            | None => None
            end
        | None => None
        end
      else get_launch_executable id rest
  end.

(** ** [main] up to line 125 *)


(** Lines 100-103: the loop runs over all applications and keeps the
    last one with the id. *)
Definition find_game_app (id : Z) (apps : list SteamApp) : option SteamApp :=
  fold_left (fun found app => if appid app =? id then Some app else found)
            apps None.




(** ** What a run may change *)

(** [w'] comes after [w] in a run that read at most [lines] lines: the
    environment, the network and the installed commands are the same,
    the log has grown, standard input, the clock and the process table
    have been read further, and the only files touched are the two under
    [/tmp]. *)
Definition evolves (lines : nat) (w w' : World) : Prop :=
  environ w' = environ w
  ∧ remote w' = remote w
  ∧ exec w' = exec w
  ∧ (∃ evs, trace w' = (trace w ++ evs)%list)
  ∧ (∃ n, (n ≤ lines)%nat ∧ stdin w' = drop n (stdin w))
  ∧ (∃ n, clock w' = drop n (clock w))
  ∧ (∃ n, procs w' = drop n (procs w))
  ∧ (∀ path, path ≠ script_path → path ≠ winereload_path →
       files w' !! path = files w !! path).


(** Working directory and environment handed to [subprocess.Popen], in
    order. *)
Definition spawn_settings (tr : list Event) : list (string * gmap string string) :=
  omap (fun e => match e with Popen _ cwd env => Some (cwd, env) | _ => None end) tr.

(** The command lines of lines 221 and 222. *)
Definition gdb_command (pid : Z) : list string :=
  ["gdb"; "-x"; script_path; "-p"; str_of_int pid].
Definition kill_command (pid : Z) : list string :=
  ["kill"; "-9"; str_of_int pid].


(** The names set by lines 186-200. *)
Definition composed_names : list string :=
  [ "PATH"; "WINEDEBUG"; "WINEDLLPATH"; "LD_LIBRARY_PATH"; "WINEPREFIX";
    "WINEESYNC"; "WINEFSYNC"; "SteamGameId"; "SteamAppId"; "WINEDLLOVERRIDES";
    "STEAM_COMPAT_CLIENT_INSTALL_PATH"; "WINE_LARGE_ADDRESS_AWARE";
    "GST_PLUGIN_SYSTEM_PATH_1_0"; "WINE_GST_REGISTRY_DIR" ].

(** The names among them that are set with [setdefault] only. *)
Definition defaulted_names : list string :=
  [ "WINEDEBUG"; "LD_LIBRARY_PATH"; "WINEPREFIX"; "WINEESYNC"; "WINEFSYNC";
    "SteamGameId"; "SteamAppId"; "STEAM_COMPAT_CLIENT_INSTALL_PATH";
    "WINE_LARGE_ADDRESS_AWARE"; "WINE_GST_REGISTRY_DIR" ].

(** ** A sample installation *)

Module Scenario.

Definition joinpath (a b : string) : string := a +:+ "/" +:+ b.

Definition game : SteamApp :=
  mkSteamApp "Game" 620 "/steam/common/Game" "/steam/compatdata/620/pfx".
Definition proton : SteamApp :=
  mkSteamApp "Proton" 1245040 "/steam/common/Proton" "".

Definition play : LaunchInfo :=
  mkLaunchInfo (Some "Play") "" "bin/game.exe" None ["-novid"].
Definition tools : LaunchInfo :=
  mkLaunchInfo (Some "Tools") "tools" "tools/editor.exe" None [].

Definition one_configuration : Catalog :=
  mkCatalog 620 ["-windowed"] "/home/user/.steam" game proton [play].
Definition two_configurations : Catalog :=
  mkCatalog 620 [] "/home/user/.steam" game proton [play; tools].

(** Every command starts and exits with status 0. *)
Definition all_run (argv : list string) : ExecOutcome := Exits 0.

(** [gdb] is not installed. *)
Definition gdb_missing (argv : list string) : ExecOutcome :=
  match argv with
  | "gdb" :: _ => Raises OSError
  | _ => Exits 0
  end.

(** A world with nothing under [/tmp] and nothing done yet. *)
Definition world (typed : list string) (run : list string -> ExecOutcome)
    (readings : list Q) (table : list (list positive)) : World :=
  mkWorld typed {[ "PATH" := "/usr/bin" ]} (Some "# wine-reload") run
          readings table ∅ [] None false.

(** The process shows up at the second lookup, one second in. *)
Definition appears_late (typed : list string) (run : list string -> ExecOutcome) : World :=
  world typed run [0%Q; (1#2)%Q; 1%Q; 5%Q] [[]; [4242%positive]].

(** Two processes carry the name at the first lookup. *)
Definition two_matches (typed : list string) : World :=
  world typed all_run [0%Q; 1%Q; 5%Q] [[4242%positive; 4250%positive]].

(** No process ever carries the name. *)
Definition never_appears (typed : list string) : World :=
  world typed all_run [0%Q; 1%Q; 2%Q; 3%Q] [].



End Scenario.

(** ** Sample metadata *)

Module Metadata.

(** A Windows entry with backslashes and default arguments. *)
Definition windows_entry : LaunchEntry :=
  mkLaunchEntry (Some "Play") (Some "bin\win64") (Some "bin\win64\game.exe")
                (Some (mkLaunchConfig (Some "windows") None))
                (Some "-novid  -dx11").

(** A Linux entry, without executable. *)
Definition linux_entry : LaunchEntry :=
  mkLaunchEntry (Some "Play (native)") None None
                (Some (mkLaunchConfig (Some "linux") None)) None.

(** An entry without [config]. *)
Definition plain_entry : LaunchEntry :=
  mkLaunchEntry None None (Some "editor.exe") None None.

(** A section of another application, without [launch] dictionary,
    then the section of application 620. *)
Definition sections : list AppSection :=
  [ mkAppSection 10 None;
    mkAppSection 620 (Some [windows_entry; linux_entry; plain_entry]) ].

Definition older_game : SteamApp :=
  mkSteamApp "Game (old library)" 620 "/old/common/Game" "/old/compatdata/620/pfx".

Definition no_prefix_game : SteamApp :=
  mkSteamApp "Game" 620 "/steam/common/Game" "".


End Metadata.

(** * Properties *)

(** ** Environment rules *)

Lemma truthy_str_Some (s : string) :
  truthy_str (Some s) = if decide (s = "") then false else true.
Proof. destruct s; reflexivity. Qed.

Lemma append_args_eq (x : string) (y : option string) (d : string) :
  append_args x y d =
    match y with
    | Some e => if decide (e = "") then x else x +:+ d +:+ e
    | None => x
    end.
Proof.
  destruct y as [e|]; [|reflexivity].
  unfold append_args. rewrite truthy_str_Some. by destruct (decide (e = "")).
Qed.

Lemma prepend_args_eq (x : string) (y : option string) (d : string) :
  prepend_args x y d =
    match y with
    | Some e => if decide (e = "") then x else e +:+ d +:+ x
    | None => x
    end.
Proof.
  destruct y as [e|]; [|reflexivity].
  unfold prepend_args. rewrite truthy_str_Some. by destruct (decide (e = "")).
Qed.

(** C3, as the specification words it, fails on the specification's own
    scenario: with [PATH=/usr/bin] the statement of line 187 applied to
    [/opt/bin] does not produce [/usr/bin:/opt/bin]. *)
Lemma append_path_spec_scenario_fails :
  Env.append_path "PATH" "/opt/bin" ":" {[ "PATH" := "/usr/bin" ]} !! "PATH"
  ≠ Some "/usr/bin:/opt/bin".
Proof. vm_compute. discriminate. Qed.

(** C3 (amended): the statement [env[k] = append_args(v, env.get(k), d)]
    stores [v + d + existing] when the existing value is non-empty and [v]
    alone when [k] is unset or empty, and touches no other variable.  With
    [PATH=/usr/bin] the rule for [/opt/bin] gives [/opt/bin:/usr/bin];
    with [PATH] unset it gives [/opt/bin]. *)
Theorem append_path_lookup :
  (∀ (env : gmap string string) (k v d k' : string),
     Env.append_path k v d env !! k' =
       if decide (k' = k)
       then Some (match env !! k with
                  | Some existing =>
                      if decide (existing = "") then v else v +:+ d +:+ existing
                  | None => v
                  end)
       else env !! k')
  ∧ Env.append_path "PATH" "/opt/bin" ":" {[ "PATH" := "/usr/bin" ]} !! "PATH"
    = Some "/opt/bin:/usr/bin"
  ∧ Env.append_path "PATH" "/opt/bin" ":" ∅ !! "PATH" = Some "/opt/bin".
Proof.
  split; [|split; reflexivity].
  intros env k v d k'. unfold Env.append_path, Env.setitem.
  rewrite append_args_eq. destruct (decide (k' = k)) as [->|Hne].
  - by rewrite lookup_insert_eq.
  - by rewrite lookup_insert_ne.
Qed.

(** C4, as the specification words it, fails: with a non-empty existing
    value the statement of line 189 does not put the new value first. *)
Lemma prepend_path_spec_order_fails :
  Env.prepend_path "WINEDLLPATH" "/opt/wine" ":" {[ "WINEDLLPATH" := "/usr/lib/wine" ]}
    !! "WINEDLLPATH"
  ≠ Some "/opt/wine:/usr/lib/wine".
Proof. vm_compute. discriminate. Qed.

(** C4 (amended): the statement [env[k] = prepend_args(v, env.get(k), d)]
    stores [existing + d + v] when the existing value is non-empty and [v]
    alone when [k] is unset or empty, and touches no other variable. *)
Theorem prepend_path_lookup :
  ∀ (env : gmap string string) (k v d k' : string),
    Env.prepend_path k v d env !! k' =
      if decide (k' = k)
      then Some (match env !! k with
                 | Some existing =>
                     if decide (existing = "") then v else existing +:+ d +:+ v
                 | None => v
                 end)
      else env !! k'.
Proof.
  intros env k v d k'. unfold Env.prepend_path, Env.setitem.
  rewrite prepend_args_eq. destruct (decide (k' = k)) as [->|Hne].
  - by rewrite lookup_insert_eq.
  - by rewrite lookup_insert_ne.
Qed.

(** C5, as the specification words it, fails for a variable that is set
    to the empty string: [setdefault] keeps the empty value. *)
Lemma setdefault_keeps_empty_value :
  Env.setdefault "WINEDEBUG" "-all" {[ "WINEDEBUG" := "" ]} !! "WINEDEBUG"
  ≠ Some "-all".
Proof. vm_compute. discriminate. Qed.

(** C5 (amended): [env.setdefault(k, v)] writes [v] exactly when [k] is
    unset; a variable that is set keeps its value, the empty string
    included, and no other variable changes. *)
Theorem setdefault_lookup :
  ∀ (env : gmap string string) (k v k' : string),
    Env.setdefault k v env !! k' =
      if decide (k' = k)
      then Some (match env !! k with
                 | Some existing => existing
                 | None => v
                 end)
      else env !! k'.
Proof.
  intros env k v k'. unfold Env.setdefault.
  destruct (env !! k) as [e|] eqn:Hk; destruct (decide (k' = k)) as [->|Hne]; try done.
  - by rewrite lookup_insert_eq.
  - by rewrite lookup_insert_ne.
Qed.

(** ** Printing and reading back process ids *)

Section Decimal_text.

Import DecimalString.

Lemma append_String (c : ascii) (s r : string) :
  String c s +:+ r = String c (s +:+ r).
Proof. reflexivity. Qed.

Lemma digit_is_plain (c : ascii) :
  is_digit c = true →
  is_space_bytes c = false ∧ c ≠ "_"%char ∧ c ≠ "-"%char ∧ c ≠ "+"%char.
Proof.
  destruct c as [[] [] [] [] [] [] [] []]; vm_compute; intros H;
    try discriminate H; repeat split; discriminate.
Qed.

Lemma printed_head (d : Decimal.uint) (r : string) :
  d ≠ Decimal.Nil →
  ∃ c s, NilEmpty.string_of_uint d +:+ r = String c s ∧ is_digit c = true.
Proof.
  destruct d; intros Hd; try congruence; simpl; eauto.
Qed.

Lemma printed_stops_or_digit (d : Decimal.uint) (r : string) :
  stops_number r →
  match NilEmpty.string_of_uint d +:+ r with
  | String c _ => c ≠ "_"%char
  | EmptyString => True
  end.
Proof.
  intros Hr. destruct d; simpl; try discriminate.
  destruct r; [done|]. apply Hr.
Qed.

Lemma scan_digits_stop (r : string) :
  stops_number r → scan_digits r = (Decimal.Nil, r).
Proof.
  destruct r as [|c r]; [done|]. intros [Hc _]. simpl.
  unfold is_digit in Hc. by destruct (digit_of c).
Qed.

Lemma scan_digits_digit (c : ascii) (d : Decimal.uint → Decimal.uint) (r : string) :
  digit_of c = Some d →
  match r with String c1 _ => c1 ≠ "_"%char | EmptyString => True end →
  scan_digits (String c r) = (d (scan_digits r).1, (scan_digits r).2).
Proof.
  intros Hd Hr. cbn [scan_digits]. rewrite Hd.
  destruct r as [|c1 r']; [reflexivity|].
  apply Ascii.eqb_neq in Hr. rewrite Hr.
  by destruct (scan_digits (String c1 r')).
Qed.

Lemma scan_digits_printed (d : Decimal.uint) (r : string) :
  stops_number r →
  scan_digits (NilEmpty.string_of_uint d +:+ r) = (d, r).
Proof.
  intros Hr. induction d as [|d IH|d IH|d IH|d IH|d IH|d IH|d IH|d IH|d IH|d IH];
    [by apply scan_digits_stop| ..];
    cbn [NilEmpty.string_of_uint]; rewrite append_String;
    (erewrite scan_digits_digit;
     [ rewrite IH; reflexivity
     | reflexivity
     | by apply printed_stops_or_digit ]).
Qed.

Lemma str_of_int_pos (p : positive) :
  str_of_int (Z.pos p) = NilEmpty.string_of_uint (Pos.to_uint p).
Proof.
  unfold str_of_int. cbn [Z.to_int NilZero.string_of_int].
  unfold NilZero.string_of_uint.
  pose proof (DecimalPos.Unsigned.to_uint_nonnil p).
  by destruct (Pos.to_uint p).
Qed.

Lemma of_uint_to_uint (p : positive) : Z.of_uint (Pos.to_uint p) = Z.pos p.
Proof.
  unfold Z.of_uint. by rewrite DecimalPos.Unsigned.of_to.
Qed.

(** Reading printed digits followed by [r]: the digits are the number
    when only white space follows, and there is no number otherwise. *)
Lemma int_of_bytes_printed (p : positive) (r : string) :
  stops_number r →
  int_of_bytes (str_of_int (Z.pos p) +:+ r) =
    if all_space is_space_bytes r then Some (Z.pos p) else None.
Proof.
  intros Hr. rewrite str_of_int_pos.
  pose proof (DecimalPos.Unsigned.to_uint_nonnil p) as Hnil.
  destruct (printed_head (Pos.to_uint p) r Hnil) as (c & s & Hs & Hc).
  destruct (digit_is_plain c Hc) as (Hsp & _ & Hminus & Hplus).
  unfold int_of_bytes, int_of.
  assert (lstrip is_space_bytes (NilEmpty.string_of_uint (Pos.to_uint p) +:+ r)
          = NilEmpty.string_of_uint (Pos.to_uint p) +:+ r) as ->.
  { rewrite Hs. simpl. by rewrite Hsp. }
  assert (split_sign (NilEmpty.string_of_uint (Pos.to_uint p) +:+ r)
          = (false, NilEmpty.string_of_uint (Pos.to_uint p) +:+ r)) as ->.
  { rewrite Hs. unfold split_sign.
    apply Ascii.eqb_neq in Hminus, Hplus. by rewrite Hminus, Hplus. }
  rewrite (scan_digits_printed _ _ Hr), <- (of_uint_to_uint p).
  by destruct (Pos.to_uint p).
Qed.

Lemma pids_line_head (q : positive) (more : list positive) :
  ∃ c s, pids_line (q :: more) = String c s ∧ is_digit c = true.
Proof.
  assert (∀ r, ∃ c s, str_of_int (Z.pos q) +:+ r = String c s ∧ is_digit c = true)
    as Hq.
  { intros r. rewrite str_of_int_pos.
    apply printed_head, DecimalPos.Unsigned.to_uint_nonnil. }
  destruct more; cbn [pids_line]; apply Hq.
Qed.

(** One matching process: [int()] reads its pid back. *)
Lemma int_of_bytes_one_pid (p : positive) :
  int_of_bytes (pids_line [p]) = Some (Z.pos p).
Proof.
  cbn [pids_line]. rewrite int_of_bytes_printed; [reflexivity|].
  split; [reflexivity | discriminate].
Qed.

(** Several matching processes: [int()] raises [ValueError]. *)
Lemma int_of_bytes_several_pids (p q : positive) (more : list positive) :
  int_of_bytes (pids_line (p :: q :: more)) = None.
Proof.
  assert (pids_line (p :: q :: more)
          = str_of_int (Z.pos p) +:+ String " "%char (pids_line (q :: more)))
    as -> by reflexivity.
  rewrite int_of_bytes_printed by (split; [reflexivity | discriminate]).
  destruct (pids_line_head q more) as (c & s & -> & Hc).
  destruct (digit_is_plain c Hc) as (Hsp & _).
  cbn [all_space]. rewrite Hsp. reflexivity.
Qed.

End Decimal_text.

(** ** The process-table polling loop *)

Lemma check_output_pidof_eq (process_name : string) (w : World) :
  pidof_missing w = false →
  check_output_pidof process_name w =
    (match hd [] (procs w) with
     | [] => Exc CalledProcessError
     | pids => Val (pids_line pids)
     end,
     log (CheckOutput ["pidof"; process_name]) (set_procs (tl (procs w)) w)).
Proof.
  destruct w as [si en re ex cl pr fi tr pa pm]. unfold check_output_pidof. cbn.
  intros ->. by destruct pr as [|[|p pids] later].
Qed.

Lemma after_lookups_step (n used : nat) (process_name : string) (t : Q)
    (later : list Q) (w : World) :
  clock w = t :: later →
  after_lookups n used process_name
    (log (CheckOutput ["pidof"; process_name])
       (set_procs (tl (procs w)) (set_clock later w)))
  = after_lookups (S n) (S used) process_name w.
Proof.
  destruct w as [si en re ex cl pr fi tr pa pm]. cbn. intros ->.
  unfold after_lookups. cbn. f_equal.
  - destruct pr; cbn; [by destruct n | done].
  - by rewrite <- app_assoc.
Qed.

Lemma poll_done (process_name : string) (timeout : Instant) (pid : option Z)
    (readings : list Q) (w : World) :
  truthy_int pid = true →
  poll process_name timeout pid readings w = (Val pid, w).
Proof. intros H. destruct readings; cbn; by rewrite H. Qed.

Lemma first_match_cons_empty (seen : list (list positive)) :
  first_match ([] :: seen) = prod_map S id <$> first_match seen.
Proof. reflexivity. Qed.

Lemma first_match_nonempty (seen : list (list positive)) (k : nat)
    (pids : list positive) :
  first_match seen = Some (k, pids) → pids ≠ [].
Proof.
  revert k. induction seen as [|[|p ps] seen IH]; intros k; cbn.
  - discriminate.
  - destruct (first_match seen) as [[k' pids']|]; [|discriminate].
    cbn. intros [= <- <-]. by eapply IH.
  - intros [= <- <-]. discriminate.
Qed.

(** What the loop of lines 211-215 does, in terms of the states it gets
    to see before the deadline: it stops at the first state with a match,
    with the pid when there is one and with [ValueError] when there are
    several, and runs to the deadline when there is no match. *)
Lemma poll_outcome (process_name : string) (timeout : Instant)
    (readings : list Q) (w : World) :
  pidof_missing w = false →
  clock w = readings →
  poll process_name timeout None readings w =
    let seen := polled timeout readings (procs w) in
    match first_match seen with
    | None =>
        (Val None, after_lookups (length seen) (S (length seen)) process_name w)
    | Some (k, [p]) =>
        (Val (Some (Z.pos p)), after_lookups (S k) (S k) process_name w)
    | Some (k, _) =>
        (Exc ValueError, after_lookups (S k) (S k) process_name w)
    end.
Proof.
  revert w. induction readings as [|t later IH]; intros w Hpidof Hclock.
  - cbn. destruct w as [si en re ex cl pr fi tr pa pm]. cbn in Hclock. subst cl.
    unfold after_lookups. cbn. by rewrite app_nil_r.
  - cbn [poll polled truthy_int].
    destruct (before (At t) timeout) eqn:Hbefore.
    + rewrite check_output_pidof_eq by (by destruct w).
      assert (procs (set_clock later w) = procs w) as -> by (by destruct w).
      set (w1 := log _ _).
      assert (clock w1 = later) as Hw1 by (by destruct w).
      assert (procs w1 = tl (procs w)) as Hprocs by (by destruct w).
      assert (pidof_missing w1 = false) as Hpidof1 by (by destruct w).
      specialize (IH w1 Hpidof1 Hw1). rewrite Hprocs in IH. cbn zeta in IH.
      destruct (hd [] (procs w)) as [|p [|q more]] eqn:Hhd.
      * rewrite IH, first_match_cons_empty.
        destruct (first_match (polled timeout later (tl (procs w))))
          as [[k [|p [|q more]]]|] eqn:Hfm; cbn;
          subst w1; by rewrite (after_lookups_step _ _ _ t later w Hclock).
      * rewrite int_of_bytes_one_pid, poll_done by reflexivity.
        cbn. subst w1.
        rewrite <- (after_lookups_step 0 0 process_name t later w Hclock).
        unfold after_lookups. cbn. rewrite app_nil_r.
        by destruct w.
      * rewrite int_of_bytes_several_pids.
        cbn. subst w1.
        rewrite <- (after_lookups_step 0 0 process_name t later w Hclock).
        unfold after_lookups. cbn. rewrite app_nil_r.
        by destruct w.
    + cbn. destruct w as [si en re ex cl pr fi tr pa pm]. cbn in Hclock. subst cl.
      unfold after_lookups. cbn. by rewrite app_nil_r.
Qed.

(** The loop when [pidof] cannot be started: the first lookup that the
    clock allows raises. *)
Lemma poll_refused (process_name : string) (timeout : Instant)
    (readings : list Q) (w : World) :
  pidof_missing w = true →
  poll process_name timeout None readings w =
    match readings with
    | [] => (Val None, w)
    | t :: later =>
        if before (At t) timeout then (Exc OSError, set_clock later w)
        else (Val None, set_clock later w)
    end.
Proof.
  intros Hpidof. destruct readings as [|t later]; [done|].
  cbn [poll truthy_int]. destruct (before (At t) timeout); [|done].
  unfold check_output_pidof.
  assert (pidof_missing (set_clock later w) = true) as -> by (by destruct w).
  reflexivity.
Qed.

(** Lines 207-219 as a whole. *)
Lemma resolve_pid_outcome (executable : string) (w : World) :
  resolve_pid executable w =
    let process_name := take 15 (basename executable) in
    let seen := polled_in w in
    if lookup_refused w
    then (Exc OSError, after_lookups 0 2 process_name w)
    else
      match first_match seen with
      | None =>
          (Ret, log (LogError (not_found_report process_name))
                  (after_lookups (length seen) (S (S (length seen))) process_name w))
      | Some (k, [p]) =>
          (Val (Z.pos p), after_lookups (S k) (S (S k)) process_name w)
      | Some (k, _) =>
          (Exc ValueError, after_lookups (S k) (S (S k)) process_name w)
      end.
Proof.
  unfold resolve_pid, polled_in, lookup_refused, bind, time_time.
  destruct (clock w) as [|t0 readings] eqn:Hclock.
  - rewrite Hclock, andb_false_r. cbn.
    destruct w as [si en re ex cl pr fi tr pa pm]. cbn in Hclock. subst cl.
    unfold logger_error, after_lookups, not_found_report. cbn.
    by rewrite app_nil_r.
  - assert (clock (set_clock readings w) = readings) as Hc by (by destruct w).
    rewrite Hc. destruct (pidof_missing w) eqn:Hpidof.
    + rewrite poll_refused by (by destruct w). cbn [andb later_by].
      destruct w as [si en re ex cl pr fi tr pa pm]. cbn in Hclock. subst cl.
      destruct readings as [|t1 later].
      * unfold logger_error, after_lookups, not_found_report. cbn.
        by rewrite app_nil_r.
      * destruct (before (At t1) (At (t0 + 3))).
        -- unfold after_lookups. cbn. by rewrite app_nil_r.
        -- unfold logger_error, after_lookups, not_found_report. cbn.
           by rewrite app_nil_r.
    + rewrite (poll_outcome _ _ readings (set_clock readings w))
        by (by destruct w).
      assert (procs (set_clock readings w) = procs w) as -> by (by destruct w).
      assert (∀ n used,
                after_lookups n used (take 15 (basename executable))
                  (set_clock readings w)
                = after_lookups n (S used) (take 15 (basename executable)) w)
        as Hafter.
      { intros n used. destruct w as [si en re ex cl pr fi tr pa pm].
        cbn in Hclock. subst cl. reflexivity. }
      cbn zeta. cbn [later_by andb].
      destruct (first_match _) as [[k [|p [|q more]]]|]; rewrite Hafter;
        reflexivity.
Qed.

(** A state polled by [resolve_pid] is one met by a lookup that ran. *)
Lemma polled_in_Some (w : World) (k : nat) (pids : list positive) :
  polled_in w !! k = Some pids → lookup_refused w = false.
Proof.
  unfold polled_in, lookup_refused.
  destruct (clock w) as [|t0 readings]; [done|].
  by destruct (pidof_missing w).
Qed.


Lemma first_match_Some (seen : list (list positive)) (k : nat)
    (pids : list positive) :
  seen !! k = Some pids → pids ≠ [] →
  (∀ j, (j < k)%nat → seen !! j = Some []) →
  first_match seen = Some (k, pids).
Proof.
  revert k. induction seen as [|s seen IH]; intros k Hk Hne Hbefore; [done|].
  destruct k as [|k].
  - cbn in Hk. injection Hk as ->. by destruct pids.
  - pose proof (Hbefore O ltac:(lia)) as H0. cbn in H0. injection H0 as ->.
    rewrite first_match_cons_empty, (IH k); [done | done | done |].
    intros j Hj. apply (Hbefore (S j)). lia.
Qed.

(** ** The log of a run *)

Lemma omap_replicate_None {A B} (f : A → option B) (n : nat) (x : A) :
  f x = None → omap f (replicate n x) = [].
Proof. intros Hx. induction n as [|n IH]; [done|]. cbn. by rewrite Hx. Qed.

Lemma after_lookups_trace (n used : nat) (process_name : string) (w : World) :
  trace (after_lookups n used process_name w)
  = (trace w ++ replicate n (CheckOutput ["pidof"; process_name]))%list.
Proof. reflexivity. Qed.

Lemma after_lookups_quiet (n used : nat) (process_name : string) (w : World) :
  let w' := after_lookups n used process_name w in
  errors (trace w') = errors (trace w)
  ∧ calls (trace w') = calls (trace w)
  ∧ popens (trace w') = popens (trace w)
  ∧ removes (trace w') = removes (trace w)
  ∧ writes (trace w') = writes (trace w)
  ∧ fetches (trace w') = fetches (trace w)
  ∧ files w' = files w
  ∧ exec w' = exec w
  ∧ stdin w' = stdin w.
Proof.
  cbn zeta. rewrite after_lookups_trace.
  unfold errors, calls, popens, removes, writes, fetches. rewrite !omap_app.
  rewrite !omap_replicate_None by reflexivity. by rewrite !app_nil_r.
Qed.

Lemma calls_log (e : Event) (w : World) :
  calls (trace (log e w))
  = (calls (trace w) ++ match e with Call argv => [argv] | _ => [] end)%list.
Proof. unfold calls. cbn [trace log]. rewrite omap_app. by destruct e. Qed.

Lemma popens_log (e : Event) (w : World) :
  popens (trace (log e w))
  = (popens (trace w) ++ match e with Popen argv _ _ => [argv] | _ => [] end)%list.
Proof. unfold popens. cbn [trace log]. rewrite omap_app. by destruct e. Qed.

Lemma removes_log (e : Event) (w : World) :
  removes (trace (log e w))
  = (removes (trace w) ++ match e with Remove path => [path] | _ => [] end)%list.
Proof. unfold removes. cbn [trace log]. rewrite omap_app. by destruct e. Qed.

Lemma fetches_log (e : Event) (w : World) :
  fetches (trace (log e w))
  = (fetches (trace w) ++ match e with Fetch url _ => [url] | _ => [] end)%list.
Proof. unfold fetches. cbn [trace log]. rewrite omap_app. by destruct e. Qed.

Lemma lookups_log (e : Event) (w : World) :
  lookups (trace (log e w))
  = (lookups (trace w) ++ match e with CheckOutput argv => [argv] | _ => [] end)%list.
Proof. unfold lookups. cbn [trace log]. rewrite omap_app. by destruct e. Qed.

Lemma writes_log (e : Event) (w : World) :
  writes (trace (log e w))
  = (writes (trace w) ++ match e with WriteFile path => [path] | _ => [] end)%list.
Proof. unfold writes. cbn [trace log]. rewrite omap_app. by destruct e. Qed.

Lemma errors_log (e : Event) (w : World) :
  errors (trace (log e w))
  = (errors (trace w) ++ match e with LogError msg => [msg] | _ => [] end)%list.
Proof. unfold errors. cbn [trace log]. rewrite omap_app. by destruct e. Qed.

(** Reading the fields of a world through the updates made to it. *)
Ltac fields :=
  cbn [trace files exec stdin environ remote clock procs
       log set_files set_stdin set_clock set_procs fst snd].

Lemma trace_set_files (f : gmap string string) (w : World) :
  trace (set_files f w) = trace w.
Proof. reflexivity. Qed.

Lemma trace_set_stdin (l : list string) (w : World) :
  trace (set_stdin l w) = trace w.
Proof. reflexivity. Qed.

Lemma trace_set_clock (c : list Q) (w : World) :
  trace (set_clock c w) = trace w.
Proof. reflexivity. Qed.

Lemma trace_set_procs (p : list (list positive)) (w : World) :
  trace (set_procs p w) = trace w.
Proof. reflexivity. Qed.

(** Reading the log of a world through the actions appended to it. *)
Ltac logged :=
  cbn [fst snd];
  repeat first
    [ rewrite trace_set_files | rewrite trace_set_stdin
    | rewrite trace_set_clock | rewrite trace_set_procs
    | rewrite calls_log | rewrite popens_log | rewrite removes_log
    | rewrite fetches_log | rewrite lookups_log | rewrite errors_log
    | rewrite writes_log ];
  cbv beta iota; rewrite ?app_nil_r, <- ?app_assoc.

(** ** The resolver *)




(** Every sequence of readings allows some number of polls: the
    readings before the first one that is not before the deadline. *)
Lemma polls_allowed (deadline : Q) (readings : list Q) :
  ∃ d : nat,
    (d ≤ length readings)%nat
    ∧ (∀ i t, (i < d)%nat → readings !! i = Some t → (t < deadline)%Q)
    ∧ (∀ t, readings !! d = Some t → (deadline <= t)%Q).
Proof.
  induction readings as [|t later (d & Hd & Hin & Hout)].
  - exists 0%nat. split; [done|]. split; [intros; lia | done].
  - destruct (Qlt_le_dec t deadline) as [Hlt|Hle].
    + exists (S d). split; [cbn; lia|]. split.
      * intros [|i] u Hi Hu; [by injection Hu as <-|].
        apply (Hin i); [lia | done].
      * intros u Hu. by apply Hout.
    + exists 0%nat. split; [cbn; lia|]. split; [intros; lia|].
      intros u Hu. by injection Hu as <-.
Qed.




Lemma polled_in_log (e : Event) (w : World) : polled_in (log e w) = polled_in w.
Proof. reflexivity. Qed.

Lemma lookup_refused_log (e : Event) (w : World) :
  lookup_refused (log e w) = lookup_refused w.
Proof. reflexivity. Qed.

(** C8: when the first poll that finds a match finds two or more
    processes, [int()] raises [ValueError] on the reply; nothing catches
    it, so [resolve_pid] ends with the exception: no pid, and no error
    report added to the log.  The run that launched the target ends the
    same way, without calling the debugger. *)
Theorem resolve_pid_several_matches (executable : string) (w : World)
    (k : nat) (p q : positive) (more : list positive) :
  polled_in w !! k = Some (p :: q :: more) →
  (∀ j, (j < k)%nat → polled_in w !! j = Some []) →
  int_of_bytes (pids_line (p :: q :: more)) = None
  ∧ resolve_pid executable w
    = (Exc ValueError,
       after_lookups (S k) (S (S k)) (take 15 (basename executable)) w)
  ∧ errors (trace (resolve_pid executable w).2) = errors (trace w)
  ∧ (∀ (c : Catalog) (info : LaunchInfo) (target : LaunchTarget) (status : Z),
       exec w (wine_command c target) = Exits status →
       let r := launch_and_debug c info target w in
       r.1 = Exc ValueError
       ∧ errors (trace r.2) = errors (trace w)
       ∧ calls (trace r.2) = calls (trace w)).
Proof.
  intros Hk Hbefore.
  assert (∀ exe w', polled_in w' = polled_in w →
            resolve_pid exe w'
            = (Exc ValueError,
               after_lookups (S k) (S (S k)) (take 15 (basename exe)) w')) as Hout.
  { intros exe w' Hsame.
    pose proof (resolve_pid_outcome exe w') as Hout. cbn zeta in Hout.
    rewrite (polled_in_Some w' k (p :: q :: more)) in Hout
      by (by rewrite Hsame).
    rewrite Hsame in Hout.
    by rewrite (first_match_Some _ k (p :: q :: more) Hk ltac:(done) Hbefore)
      in Hout. }
  split; [apply int_of_bytes_several_pids|].
  split; [by apply Hout|].
  split; [rewrite Hout by done; apply after_lookups_quiet|].
  intros c info target status Hexec. cbn zeta.
  unfold launch_and_debug, bind, subprocess_Popen. rewrite Hexec.
  rewrite Hout by apply polled_in_log.
  set (w1 := log _ w).
  destruct (after_lookups_quiet (S k) (S (S k))
              (take 15 (basename (launch_executable info))) w1)
    as (He & Hc & _).
  cbn [fst snd]. rewrite He, Hc. subst w1. by logged.
Qed.

Lemma resolve_pid_several_matches_witness :
  (resolve_pid "bin/game.exe" (Scenario.two_matches [])).1 = Exc ValueError
  ∧ (launch_and_debug Scenario.one_configuration Scenario.play
       (build_target Scenario.joinpath Scenario.one_configuration Scenario.play)
       (Scenario.two_matches [])).1 = Exc ValueError.
Proof.
  pose proof (resolve_pid_several_matches "bin/game.exe" (Scenario.two_matches [])
                0%nat 4242%positive 4250%positive [] eq_refl) as H.
  destruct H as (_ & Hresolve & _ & Hrun); [intros j Hj; lia|].
  split.
  - by rewrite Hresolve.
  - apply (Hrun Scenario.one_configuration Scenario.play
             (build_target Scenario.joinpath Scenario.one_configuration
                Scenario.play) 0%Z eq_refl).
Defined.

(** ** Choosing the launch configuration *)

Lemma in_range_spec (i : Z) (n : nat) :
  in_range i n = bool_decide (0 ≤ i < Z.of_nat n)%Z.
Proof.
  unfold in_range. case_bool_decide as H.
  - apply andb_true_iff. split; [apply Z.leb_le | apply Z.ltb_lt]; lia.
  - apply andb_false_iff.
    destruct (Z.leb_spec 0 i); [right; apply Z.ltb_ge; lia | by left].
Qed.

(** Lines 134-147 with two or more candidates, by cases on the line
    typed at the prompt. *)
Lemma select_configuration_many (first second : LaunchInfo)
    (others : list LaunchInfo) (w : World) :
  select_configuration (first :: second :: others) w =
    match stdin w with
    | [] => (Exc EOFError, w)
    | line :: rest =>
        match int_of_str line with
        | Some i =>
            match (first :: second :: others) !! Z.to_nat i with
            | Some info =>
                if bool_decide (0 ≤ i < Z.of_nat (length (first :: second :: others)))%Z
                then (Val info, set_stdin rest w)
                else (Ret, log (LogError "Invalid app configuration.")
                             (set_stdin rest w))
            | None =>
                (Ret, log (LogError "Invalid app configuration.") (set_stdin rest w))
            end
        | None =>
            (Ret, log (LogError "Invalid app configuration.") (set_stdin rest w))
        end
    end.
Proof.
  unfold select_configuration, bind, input.
  destruct (stdin w) as [|line rest]; [done|].
  unfold safe_cast, py_int.
  destruct (int_of_str line) as [i|]; [|done].
  cbn [pure]. rewrite in_range_spec.
  set (infos := first :: second :: others).
  case_bool_decide as Hi.
  - destruct (infos !! Z.to_nat i) eqn:Hlook; [done|].
    apply lookup_ge_None in Hlook. lia.
  - by destruct (infos !! Z.to_nat i).
Qed.



(** ** Attaching the debugger *)

(** C1, as the specification words it, fails: when [gdb] cannot be
    started the exception leaves [main] at line 221, no [kill] is run and
    the script file stays. *)
Lemma cleanup_skipped_when_gdb_fails :
  let r := main Scenario.joinpath Scenario.one_configuration
             (Scenario.appears_late ["Y"] Scenario.gdb_missing) in
  r.1 = Exc OSError
  ∧ calls (trace r.2) = [["gdb"; "-x"; "/tmp/.protongdb_args"; "-p"; "4242"]]
  ∧ removes (trace r.2) = []
  ∧ files r.2 !! script_path = Some (script_text gdb_commands).
Proof. vm_compute. repeat split. Qed.

(** C1 (amended): once the debugger invocation has returned, whatever
    its exit status, [kill -9 pid] is run next and, when that invocation
    returns, the script file is removed; when the debugger invocation
    raises, the exception propagates and neither [kill] nor the removal
    is executed. *)
Theorem attach_debugger_cleanup (pid : Z) (w : World) :
  let gdb := ["gdb"; "-x"; script_path; "-p"; str_of_int pid] in
  let kill := ["kill"; "-9"; str_of_int pid] in
  let r := attach_debugger pid w in
  (∀ status, exec w gdb = Exits status →
     calls (trace r.2) = (calls (trace w) ++ [gdb; kill])%list
     ∧ (∀ status', exec w kill = Exits status' →
          removes (trace r.2) = (removes (trace w) ++ [script_path])%list
          ∧ files r.2 !! script_path = None))
  ∧ (∀ e, exec w gdb = Raises e →
       r = (Exc e, log (Call gdb) w)
       ∧ calls (trace r.2) = (calls (trace w) ++ [gdb])%list
       ∧ removes (trace r.2) = removes (trace w)
       ∧ files r.2 = files w).
Proof.
  cbn zeta. unfold attach_debugger, bind, subprocess_call, os_remove.
  split.
  - intros status Hgdb. rewrite Hgdb. fields.
    destruct (exec w ["kill"; "-9"; str_of_int pid]) as [status'|e] eqn:Hkill.
    + fields. destruct (files w !! script_path) eqn:Hfile.
      * split; [by logged|]. intros _ _.
        split; [by logged | fields; apply lookup_delete_eq].
      * split; [by logged|]. intros _ _.
        split; [by logged | done].
    + split; [by logged|]. intros status' Hkill'. congruence.
  - intros e Hgdb. rewrite Hgdb. split; [done|]. by logged.
Qed.

Lemma attach_debugger_cleanup_witness :
  calls (trace (attach_debugger 4242
                  (Scenario.world [] Scenario.all_run [] [])).2)
  = [["gdb"; "-x"; script_path; "-p"; "4242"]; ["kill"; "-9"; "4242"]]
  ∧ attach_debugger 4242 (Scenario.world [] Scenario.gdb_missing [] [])
    = (Exc OSError,
       log (Call ["gdb"; "-x"; script_path; "-p"; "4242"])
         (Scenario.world [] Scenario.gdb_missing [] [])).
Proof.
  split.
  - apply (proj1 (attach_debugger_cleanup 4242
                    (Scenario.world [] Scenario.all_run [] [])) 0%Z eq_refl).
  - apply (proj2 (attach_debugger_cleanup 4242
                    (Scenario.world [] Scenario.gdb_missing [] [])) OSError eq_refl).
Defined.

(** ** The whole run *)

Lemma main_unfold (joinpath : string → string → string) (c : Catalog) (w : World) :
  main joinpath c w =
    match prepare joinpath c w with
    | (Val chosen, w1) =>
        match stdin w1 with
        | [] => (Exc EOFError, w1)
        | line :: rest =>
            if declined (upper line) then (Ret, set_stdin rest w1)
            else launch_and_debug c chosen.1 chosen.2 (set_stdin rest w1)
        end
    | (Ret, w1) => (Ret, w1)
    | (Exc e, w1) => (Exc e, w1)
    end.
Proof.
  unfold main, bind, input.
  destruct (prepare joinpath c w) as [[chosen| |e] w1]; [|done..].
  destruct (stdin w1) as [|line rest]; [done|].
  by destruct (declined (upper line)).
Qed.

Lemma script_fate_rebase (w w' : World) (r : Res unit * World) :
  removes (trace w) = removes (trace w') → script_fate w r → script_fate w' r.
Proof. unfold script_fate. by intros ->. Qed.

Lemma attach_debugger_fate (pid : Z) (w : World) :
  files w !! script_path = Some (script_text gdb_commands) →
  let r := attach_debugger pid w in
  script_fate w r
  ∧ writes (trace r.2) = writes (trace w)
  ∧ popens (trace r.2) = popens (trace w).
Proof.
  intros Hfile. cbn zeta.
  unfold attach_debugger, bind, subprocess_call, os_remove, script_fate.
  destruct (exec w _) as [status|e]; [|by logged].
  destruct (exec (log _ w) _) as [status'|e]; [|by logged].
  assert (∀ e1 e2, files (log e1 (log e2 w)) !! script_path
                   = Some (script_text gdb_commands)) as -> by (intros; exact Hfile).
  logged. repeat split. fields. apply lookup_delete_eq.
Qed.

Lemma launch_and_debug_fate (c : Catalog) (info : LaunchInfo)
    (target : LaunchTarget) (w : World) :
  files w !! script_path = Some (script_text gdb_commands) →
  let r := launch_and_debug c info target w in
  script_fate w r
  ∧ writes (trace r.2) = writes (trace w)
  ∧ popens (trace r.2) = (popens (trace w) ++ [wine_command c target])%list.
Proof.
  intros Hfile. cbn zeta. unfold launch_and_debug, bind, subprocess_Popen.
  set (w1 := log _ w).
  assert (files w1 = files w) as Hf1 by reflexivity.
  assert (removes (trace w1) = removes (trace w)) as Hr1 by (subst w1; by logged).
  assert (writes (trace w1) = writes (trace w)) as Hw1 by (subst w1; by logged).
  assert (popens (trace w1) = (popens (trace w) ++ [wine_command c target])%list)
    as Hp1 by (subst w1; by logged).
  destruct (exec w _) as [status|e].
  - rewrite resolve_pid_outcome. cbn zeta.
    set (name := take 15 (basename (launch_executable info))).
    destruct (lookup_refused w1);
      [|destruct (first_match (polled_in w1)) as [[k [|p [|q more]]]|]].
    + destruct (after_lookups_quiet 0 2 name w1)
        as (_ & _ & Hp & Hr & Hw & _ & Hf & _).
      unfold script_fate. cbn [fst snd]. by rewrite Hp, Hr, Hw, Hf, Hf1, Hr1, Hw1, Hp1.
    + destruct (after_lookups_quiet (S k) (S (S k)) name w1)
        as (_ & _ & Hp & Hr & Hw & _ & Hf & _).
      unfold script_fate. cbn [fst snd]. by rewrite Hp, Hr, Hw, Hf, Hf1, Hr1, Hw1, Hp1.
    + set (w2 := after_lookups _ _ _ w1).
      destruct (after_lookups_quiet (S k) (S (S k)) name w1)
        as (_ & _ & Hp & Hr & Hw & _ & Hf & _). fold w2 in Hp, Hr, Hw, Hf.
      destruct (attach_debugger_fate (Z.pos p) w2) as (Hfate & Hw' & Hp').
      { by rewrite Hf, Hf1. }
      split; [|split].
      * eapply script_fate_rebase; [|exact Hfate]. by rewrite Hr, Hr1.
      * by rewrite Hw', Hw, Hw1.
      * by rewrite Hp', Hp, Hp1.
    + destruct (after_lookups_quiet (S k) (S (S k)) name w1)
        as (_ & _ & Hp & Hr & Hw & _ & Hf & _).
      unfold script_fate. cbn [fst snd]. by rewrite Hp, Hr, Hw, Hf, Hf1, Hr1, Hw1, Hp1.
    + set (n := length (polled_in w1)).
      destruct (after_lookups_quiet n (S (S n)) name w1)
        as (_ & _ & Hp & Hr & Hw & _ & Hf & _).
      unfold script_fate. logged. fields.
      by rewrite Hp, Hr, Hw, Hf, Hf1, Hr1, Hw1, Hp1.
  - unfold script_fate. cbn [fst snd]. by rewrite Hf1, Hr1, Hw1, Hp1.
Qed.

Lemma set_stdin_same (w : World) : set_stdin (stdin w) w = w.
Proof. by destruct w. Qed.

(** The selection either yields a configuration, having at most read
    from standard input, or ends the run without any external action. *)
Lemma select_configuration_cases (infos : list LaunchInfo) (w : World) :
  (∃ info typed,
     select_configuration infos w = (Val info, set_stdin typed w))
  ∨ (∃ r w0,
       select_configuration infos w = (r, w0)
       ∧ (∀ info, r ≠ Val info)
       ∧ writes (trace w0) = writes (trace w)
       ∧ popens (trace w0) = popens (trace w)
       ∧ files w0 = files w).
Proof.
  assert (∀ typed, 
            writes (trace (log (LogError "Invalid app configuration.")
                             (set_stdin typed w))) = writes (trace w)
            ∧ popens (trace (log (LogError "Invalid app configuration.")
                               (set_stdin typed w))) = popens (trace w)
            ∧ files (log (LogError "Invalid app configuration.")
                       (set_stdin typed w)) = files w) as Hlog.
  { intros typed. by logged. }
  destruct infos as [|first [|second others]].
  - unfold select_configuration, bind, input, safe_cast, py_int.
    destruct (stdin w) as [|line rest]; [right; by eexists _, _|].
    destruct (int_of_str line) as [i|]; cbn [pure];
      [|right; eexists _, _; split; [reflexivity|]; split; [done | apply Hlog]].
    rewrite in_range_spec. case_bool_decide as Hi; [cbn in Hi; lia|].
    right. eexists _, _. split; [reflexivity|]. split; [done | apply Hlog].
  - left. exists first, (stdin w). by rewrite set_stdin_same.
  - rewrite select_configuration_many.
    destruct (stdin w) as [|line rest]; [right; by eexists _, _|].
    destruct (int_of_str line) as [i|];
      [|right; eexists _, _; split; [reflexivity|]; split; [done | apply Hlog]].
    destruct (_ !! Z.to_nat i) as [info|];
      [|right; eexists _, _; split; [reflexivity|]; split; [done | apply Hlog]].
    case_bool_decide; [left; by eexists _, _|].
    right. eexists _, _. split; [reflexivity|]. split; [done | apply Hlog].
Qed.

(** [prepare] either hands over a target, with both files written, or
    ends the run before the debugger script is written. *)
Lemma prepare_cases (joinpath : string → string → string) (c : Catalog) (w : World) :
  (∃ info body typed,
     remote w = Some body
     ∧ prepare joinpath c w
       = (Val (info, build_target joinpath c info),
          fetched_and_written body (set_stdin typed w)))
  ∨ (∃ r w1,
       prepare joinpath c w = (r, w1)
       ∧ (∀ chosen, r ≠ Val chosen)
       ∧ writes (trace w1) = writes (trace w)
       ∧ popens (trace w1) = popens (trace w)).
Proof.
  unfold prepare.
  destruct (app_infos c) as [|first others] eqn:Hinfos.
  - right. unfold bind, logger_error, return_. eexists _, _.
    split; [reflexivity|]. split; [done|]. by logged.
  - unfold bind.
    destruct (select_configuration_cases (first :: others) w)
      as [(info & typed & ->)|(r & w0 & -> & Hr & Hw & Hp & _)].
    + unfold urlretrieve, write_file, pure. fields.
      destruct (remote w) as [body|] eqn:Hremote.
      * left. by exists info, body, typed.
      * right. destruct (partial (set_stdin typed w));
          (eexists _, _; split; [reflexivity|]; split; [done|]; by logged).
    + right. destruct r as [info| |e].
      * by destruct (Hr info).
      * by eexists _, _.
      * by eexists _, _.
Qed.

Lemma fetched_and_written_facts (body : string) (w : World) :
  let w' := fetched_and_written body w in
  writes (trace w') = (writes (trace w) ++ [script_path])%list
  ∧ fetches (trace w') = (fetches (trace w) ++ [winereload_url])%list
  ∧ popens (trace w') = popens (trace w)
  ∧ lookups (trace w') = lookups (trace w)
  ∧ calls (trace w') = calls (trace w)
  ∧ removes (trace w') = removes (trace w)
  ∧ files w' !! script_path = Some (script_text gdb_commands)
  ∧ files w' !! winereload_path = Some body
  ∧ stdin w' = stdin w.
Proof.
  cbn zeta. unfold fetched_and_written. logged. fields.
  repeat split.
  - apply lookup_insert_eq.
  - rewrite lookup_insert_ne by done. apply lookup_insert_eq.
Qed.

Lemma declined_iff (line : string) :
  declined (upper line) = true
  ↔ ∃ rest, line = String "n" rest ∨ line = String "N" rest.
Proof.
  destruct line as [|a rest]; cbn [upper declined].
  - split; [done|]. intros (? & [?|?]); done.
  - split.
    + intros H. exists rest.
      destruct a as [[] [] [] [] [] [] [] []]; vm_compute in H; try done; auto.
    + intros (rest' & [[= -> _]|[= -> _]]); reflexivity.
Qed.

(** C2, as the specification words it, fails: after an abort at the
    confirmation prompt, and after the resolver gave up, [main] has
    returned and the debugger script is still there. *)
Lemma script_left_after_abort_and_timeout :
  let aborted := main Scenario.joinpath Scenario.one_configuration
                   (Scenario.appears_late ["n"] Scenario.all_run) in
  let timed_out := main Scenario.joinpath Scenario.one_configuration
                     (Scenario.never_appears ["Y"]) in
  (aborted.1 = Ret
   ∧ writes (trace aborted.2) = [script_path]
   ∧ removes (trace aborted.2) = []
   ∧ files aborted.2 !! script_path = Some (script_text gdb_commands))
  ∧ (timed_out.1 = Ret
     ∧ errors (trace timed_out.2) = [not_found_report "game.exe"]
     ∧ writes (trace timed_out.2) = [script_path]
     ∧ removes (trace timed_out.2) = []
     ∧ files timed_out.2 !! script_path = Some (script_text gdb_commands)).
Proof. vm_compute. repeat split. Qed.

(** C2 (amended): a run either ends before the debugger script is
    written, or writes it once; in the latter case the script is removed
    exactly when [main] runs to its last line, and every earlier exit
    (abort at the confirmation prompt, resolver giving up, any exception)
    leaves the file in place with its content. *)
Theorem script_removed_only_at_end (joinpath : string → string → string)
    (c : Catalog) (w : World) :
  let r := main joinpath c w in
  writes (trace r.2) = writes (trace w)
  ∨ (writes (trace r.2) = (writes (trace w) ++ [script_path])%list
     ∧ match r.1 with
       | Val _ =>
           removes (trace r.2) = (removes (trace w) ++ [script_path])%list
           ∧ files r.2 !! script_path = None
       | _ =>
           removes (trace r.2) = removes (trace w)
           ∧ files r.2 !! script_path = Some (script_text gdb_commands)
       end).
Proof.
  cbn zeta. rewrite main_unfold.
  destruct (prepare_cases joinpath c w)
    as [(info & body & typed & Hremote & ->)|(r & w1 & -> & Hr & Hw & _)].
  - right.
    destruct (fetched_and_written_facts body (set_stdin typed w))
      as (Hw & _ & _ & _ & _ & Hrm & Hscript & _ & _).
    rewrite trace_set_stdin in Hw, Hrm.
    set (w1 := fetched_and_written body (set_stdin typed w)) in *.
    destruct (stdin w1) as [|line rest]; [done|].
    destruct (declined (upper line)); [by logged|].
    change (_, build_target joinpath c info).1 with info.
    change (info, build_target joinpath c info).2 with (build_target joinpath c info).
    destruct (launch_and_debug_fate c info (build_target joinpath c info)
                (set_stdin rest w1) Hscript) as (Hfate & Hw' & _).
    rewrite trace_set_stdin in Hw'.
    split; [by rewrite Hw'|].
    unfold script_fate in Hfate. rewrite trace_set_stdin, Hrm in Hfate.
    exact Hfate.
  - left. destruct r as [chosen| |e]; [by destruct (Hr chosen) | done | done].
Qed.

(** C6, as the specification words it, fails: answering "n" ends the
    run without launching anything, but the helper script has been
    fetched and both files are left under [/tmp]. *)
Lemma abort_leaves_fetch_and_files :
  let r := main Scenario.joinpath Scenario.one_configuration
             (Scenario.appears_late ["n"] Scenario.all_run) in
  r.1 = Ret
  ∧ popens (trace r.2) = []
  ∧ fetches (trace r.2) = [winereload_url]
  ∧ files (Scenario.appears_late ["n"] Scenario.all_run) = ∅
  ∧ files r.2 !! winereload_path = Some "# wine-reload"
  ∧ files r.2 !! script_path = Some (script_text gdb_commands).
Proof. vm_compute. repeat split. Qed.

(** C6 (amended): when the answer at the confirmation prompt starts
    with 'n' or 'N', [main] returns at once: nothing is launched, looked
    up, called or removed; the fetch of the helper script and the two
    files written before the prompt remain. *)
Theorem decline_returns_before_launch (joinpath : string → string → string)
    (c : Catalog) (w w1 : World) (chosen : LaunchInfo * LaunchTarget)
    (first : ascii) (tail : string) (rest : list string) :
  prepare joinpath c w = (Val chosen, w1) →
  stdin w1 = String first tail :: rest →
  first = "n"%char ∨ first = "N"%char →
  let r := main joinpath c w in
  r = (Ret, set_stdin rest w1)
  ∧ popens (trace r.2) = popens (trace w)
  ∧ lookups (trace r.2) = lookups (trace w)
  ∧ calls (trace r.2) = calls (trace w)
  ∧ removes (trace r.2) = removes (trace w)
  ∧ fetches (trace r.2) = (fetches (trace w) ++ [winereload_url])%list
  ∧ writes (trace r.2) = (writes (trace w) ++ [script_path])%list
  ∧ is_Some (files r.2 !! winereload_path)
  ∧ files r.2 !! script_path = Some (script_text gdb_commands).
Proof.
  intros Hprep Hin Hfirst. cbn zeta. rewrite main_unfold, Hprep, Hin.
  assert (declined (upper (String first tail)) = true) as ->.
  { apply declined_iff. exists tail. destruct Hfirst as [->| ->]; auto. }
  split; [done|]. cbn [snd]. rewrite trace_set_stdin.
  destruct (prepare_cases joinpath c w)
    as [(info & body & typed & Hremote & Heq)|(r & w' & Heq & Hr & _)].
  - rewrite Hprep in Heq. injection Heq as _ ->.
    destruct (fetched_and_written_facts body (set_stdin typed w))
      as (Hw & Hf & Hp & Hl & Hc & Hrm & Hscript & Hhelper & _).
    rewrite trace_set_stdin in Hw, Hf, Hp, Hl, Hc, Hrm.
    fields. fold (files (fetched_and_written body (set_stdin typed w))).
    by rewrite Hhelper.
  - rewrite Hprep in Heq. injection Heq as <- _. by destruct (Hr chosen).
Qed.

Lemma decline_returns_before_launch_witness :
  main Scenario.joinpath Scenario.one_configuration
    (Scenario.appears_late ["n"] Scenario.all_run)
  = (Ret,
     set_stdin []
       (fetched_and_written "# wine-reload"
          (Scenario.appears_late ["n"] Scenario.all_run))).
Proof.
  refine (proj1 (decline_returns_before_launch Scenario.joinpath
                   Scenario.one_configuration
                   (Scenario.appears_late ["n"] Scenario.all_run)
                   (fetched_and_written "# wine-reload"
                      (Scenario.appears_late ["n"] Scenario.all_run))
                   (Scenario.play,
                    build_target Scenario.joinpath Scenario.one_configuration
                      Scenario.play)
                   "n"%char "" [] _ _ _)).
  - reflexivity.
  - reflexivity.
  - left. reflexivity.
Defined.

(** C9: with one launch configuration and an answer at the
    confirmation prompt that does not start with 'n' or 'N', the run
    starts exactly one process: the Proton [wine] binary with
    [steam.exe], the path of the target executable, the arguments of the
    configuration and then the caller's extra arguments. *)
Theorem wine_launched_once (joinpath : string → string → string)
    (c : Catalog) (info : LaunchInfo) (w : World)
    (line body : string) (rest : list string) :
  app_infos c = [info] →
  remote w = Some body →
  stdin w = line :: rest →
  declined (upper line) = false →
  popens (trace (main joinpath c w).2)
  = (popens (trace w)
     ++ [[install_path (proton_app c) +:+ "/files/bin/wine"; "steam.exe";
          joinpath (install_path (game_app c)) (launch_executable info)]
         ++ app_config_args info ++ user_app_args c])%list.
Proof.
  intros Hinfos Hremote Hin Hyes. rewrite main_unfold.
  assert (prepare joinpath c w
          = (Val (info, build_target joinpath c info),
             fetched_and_written body w)) as ->.
  { unfold prepare. rewrite Hinfos.
    unfold bind, select_configuration, pure, urlretrieve, write_file.
    fields. by rewrite Hremote. }
  destruct (fetched_and_written_facts body w)
    as (_ & _ & Hp & _ & _ & _ & Hscript & _ & Hstdin).
  cbn zeta in Hstdin. rewrite Hstdin, Hin, Hyes.
  change (_, build_target joinpath c info).1 with info.
  change (info, build_target joinpath c info).2 with (build_target joinpath c info).
  destruct (launch_and_debug_fate c info (build_target joinpath c info)
              (set_stdin rest (fetched_and_written body w)) Hscript)
    as (_ & _ & Hp').
  cbn zeta in Hp'. rewrite Hp', trace_set_stdin.
  cbn zeta in Hp. by rewrite Hp.
Qed.

Lemma wine_launched_once_witness :
  popens (trace (main Scenario.joinpath Scenario.one_configuration
                   (Scenario.appears_late ["Y"] Scenario.all_run)).2)
  = [["/steam/common/Proton/files/bin/wine"; "steam.exe";
      "/steam/common/Game/bin/game.exe"; "-novid"; "-windowed"]].
Proof.
  apply (wine_launched_once Scenario.joinpath Scenario.one_configuration
           Scenario.play (Scenario.appears_late ["Y"] Scenario.all_run)
           "Y" "# wine-reload" [] eq_refl eq_refl eq_refl eq_refl).
Defined.

(** * Further properties *)

(** ** Paths and argument lines *)

Lemma backslash_to_slash_clean (p : string) :
  Text.has_backslash (Text.backslash_to_slash p) = false.
Proof.
  induction p as [|c r IH]; [done|].
  cbn [Text.has_backslash Text.backslash_to_slash].
  rewrite IH, orb_false_r.
  destruct (Ascii.eqb c "\"%char) eqn:Hc; [reflexivity | exact Hc].
Qed.

Lemma backslash_to_slash_fixed (p : string) :
  Text.has_backslash p = false → Text.backslash_to_slash p = p.
Proof.
  induction p as [|c r IH]; [done|].
  cbn [Text.has_backslash Text.backslash_to_slash]. intros H.
  apply orb_false_iff in H as [Hc Hr]. by rewrite Hc, IH.
Qed.

Lemma backslash_to_slash_length (p : string) :
  String.length (Text.backslash_to_slash p) = String.length p.
Proof. induction p as [|c r IH]; [done|]. cbn. by rewrite IH. Qed.

(** X1: whatever it is given (a missing value, an empty string, any
    path), [normalize_path] returns a string without backslash. *)
Theorem normalize_path_no_backslash (path : option string) :
  Text.has_backslash (normalize_path path) = false.
Proof.
  destruct path as [[|c r]|]; [done| |done].
  apply backslash_to_slash_clean.
Qed.

(** X2: normalising twice is normalising once, and the result has the
    length of the path given (0 for a missing one). *)
Theorem normalize_path_idempotent (path : option string) :
  normalize_path (Some (normalize_path path)) = normalize_path path
  ∧ String.length (normalize_path path) = String.length (default "" path).
Proof.
  destruct path as [[|c r]|]; [done| |done]. split.
  - unfold normalize_path at 1.
    rewrite backslash_to_slash_fixed by apply normalize_path_no_backslash.
    by destruct (normalize_path (Some (String c r))).
  - apply backslash_to_slash_length.
Qed.

Lemma is_word_from_of_word (s : string) :
  Text.is_word s = true → Text.is_word_from s = true.
Proof. by destruct s. Qed.

Lemma split_all_words (s : string) :
  Forall (λ word, Text.is_word word = true) (Text.split s).
Proof.
  induction s as [|c r IH]; [constructor|].
  cbn [Text.split]. destruct (is_space_str c) eqn:Hc; [exact IH|].
  destruct r as [|c' r'].
  - constructor; [|constructor]. cbn. by rewrite Hc.
  - destruct (is_space_str c') eqn:Hc'.
    + constructor; [|exact IH]. cbn. by rewrite Hc.
    + destruct (Text.split (String c' r')) as [|word others].
      * constructor; [|constructor]. cbn. by rewrite Hc.
      * inversion IH as [|? ? Hword Hothers]; subst.
        constructor; [|exact Hothers].
        cbn. rewrite Hc. cbn. by apply is_word_from_of_word.
Qed.

Lemma split_nil_iff (s : string) :
  Text.split s = [] ↔ all_space is_space_str s = true.
Proof.
  induction s as [|c r IH]; [done|].
  cbn [Text.split all_space]. destruct (is_space_str c) eqn:Hc; [exact IH|].
  cbn [andb]. split; [|done].
  destruct r as [|c' r']; [done|].
  destruct (is_space_str c'); [done|].
  by destruct (Text.split (String c' r')).
Qed.

(** X3: the default arguments of a launch entry (lines 42-43).  An entry
    without [arguments], or whose [arguments] are empty or made of white
    space only, gives a tuple with no default argument; every other
    entry gives at least one. *)
Theorem launch_tuple_no_arguments (e : LaunchEntry) (t : LaunchInfo) :
  launch_tuple e = Some t →
  (app_config_args t = []
   ↔ match entry_arguments e with
     | Some a => all_space is_space_str a = true
     | None => True
     end).
Proof.
  unfold launch_tuple. destruct (entry_executable e) as [exe|]; [|done].
  intros [= <-]. cbn [app_config_args].
  destruct (entry_arguments e) as [[|c r]|]; [done | | done].
  cbn [truthy_str]. apply split_nil_iff.
Qed.

Lemma launch_tuple_no_arguments_witness :
  app_config_args
    {| description := None; working_dir := ""; launch_executable := "bin/game.exe";
       beta_key := None; app_config_args := [] |} = []
  ↔ all_space is_space_str (String " " (String (ascii_of_nat 9) "")) = true.
Proof.
  apply (launch_tuple_no_arguments
           (mkLaunchEntry None None (Some "bin\game.exe") None
              (Some (String " " (String (ascii_of_nat 9) ""))))).
  reflexivity.
Defined.

Lemma is_word_from_cons (a : ascii) (s : string) :
  Text.is_word_from (String a s) = true →
  is_space_str a = false ∧ Text.is_word_from s = true.
Proof.
  cbn [Text.is_word_from]. intros H.
  apply andb_true_iff in H as [Ha Hs]. by apply negb_true_iff in Ha.
Qed.

Lemma split_after_word (word : string) (c : ascii) (r : string) :
  Text.is_word_from word = true →
  is_space_str c = true →
  Text.split (word +:+ String c r)
  = match word with
    | EmptyString => Text.split r
    | _ => word :: Text.split r
    end.
Proof.
  intros Hword Hc. induction word as [|a word' IH].
  - change ("" +:+ String c r) with (String c r).
    cbn [Text.split]. by rewrite Hc.
  - apply is_word_from_cons in Hword as [Ha Hword'].
    specialize (IH Hword').
    change (String a word' +:+ String c r) with (String a (word' +:+ String c r)).
    cbn [Text.split]. rewrite Ha.
    destruct word' as [|b word''].
    + change ("" +:+ String c r) with (String c r). cbv beta iota. rewrite Hc.
      cbn [Text.split]. by rewrite Hc.
    + change (String b word'' +:+ String c r)
        with (String b (word'' +:+ String c r)) in *.
      apply is_word_from_cons in Hword' as [Hb _].
      cbv beta iota. rewrite Hb. by rewrite IH.
Qed.

Lemma split_cons (c : ascii) (r : string) :
  Text.split (String c r) =
    if is_space_str c then Text.split r
    else
      match r with
      | String c' _ =>
          if is_space_str c' then String c EmptyString :: Text.split r
          else
            match Text.split r with
            | word :: others => String c word :: others
            | [] => [String c EmptyString]
            end
      | EmptyString => [String c EmptyString]
      end.
Proof. reflexivity. Qed.

Lemma split_word (word : string) :
  Text.is_word word = true → Text.split word = [word].
Proof.
  intros Hword. destruct word as [|a word']; [done|].
  apply is_word_from_of_word in Hword.
  revert a Hword. induction word' as [|b word'' IH]; intros a Hword;
    apply is_word_from_cons in Hword as [Ha Hrest].
  - rewrite split_cons. by rewrite Ha.
  - rewrite split_cons, Ha.
    destruct (is_word_from_cons _ _ Hrest) as [Hb _].
    rewrite Hb. by rewrite (IH b Hrest).
Qed.

(** X4: an argument list made of words survives being joined by
    [list_to_space_str] and split again. *)
Theorem split_list_to_space_str (words : list string) :
  Forall (λ word, Text.is_word word = true) words →
  Text.split (list_to_space_str words) = words.
Proof.
  induction words as [|word rest IH]; [done|].
  intros Hall. inversion Hall as [|? ? Hword Hrest]; subst.
  destruct rest as [|second rest].
  - by apply split_word.
  - change (list_to_space_str (word :: second :: rest))
      with (word +:+ String " "%char (list_to_space_str (second :: rest))).
    rewrite split_after_word;
      [|by apply is_word_from_of_word | reflexivity].
    rewrite (IH Hrest). by destruct word.
Qed.

Lemma split_list_to_space_str_witness :
  Text.split (list_to_space_str ["-novid"; "-windowed"; "+map"])
  = ["-novid"; "-windowed"; "+map"].
Proof.
  apply split_list_to_space_str. repeat constructor.
Defined.

(** ** Launch entries *)

Lemma launch_tuples_app (a b : list LaunchEntry) :
  launch_tuples (a ++ b) =
    match launch_tuples a, launch_tuples b with
    | Some x, Some y => Some (x ++ y)%list
    | _, _ => None
    end.
Proof.
  induction a as [|e a IH]; cbn [List.app launch_tuples].
  - by destruct (launch_tuples b).
  - destruct (os_allowed e); [|exact IH].
    destruct (launch_tuple e) as [t|]; [|done].
    rewrite IH. destruct (launch_tuples a), (launch_tuples b); done.
Qed.

(** X5: when no section carries the application id, the result is the
    empty list, whatever the other sections contain: their launch data is
    not read, so a section without [launch] dictionary raises nothing. *)
Theorem get_launch_executable_no_match (id : Z) (appinfo : list AppSection) :
  Forall (λ app, section_appid app ≠ id) appinfo →
  get_launch_executable id appinfo = Some [].
Proof.
  induction 1 as [|app rest Hne _ IH]; [done|].
  cbn [get_launch_executable].
  by destruct (Z.eqb_spec (section_appid app) id).
Qed.

Lemma get_launch_executable_no_match_witness :
  get_launch_executable 730 Metadata.sections = Some [].
Proof.
  apply get_launch_executable_no_match. repeat constructor; discriminate.
Defined.

(** X6: the sections are handled one after the other and their tuples
    concatenated in order; a [KeyError] in either part is a [KeyError]
    of the whole. *)
Theorem get_launch_executable_app (id : Z) (a b : list AppSection) :
  get_launch_executable id (a ++ b) =
    match get_launch_executable id a, get_launch_executable id b with
    | Some x, Some y => Some (x ++ y)%list
    | _, _ => None
    end.
Proof.
  induction a as [|section a IH]; cbn [List.app get_launch_executable].
  - by destruct (get_launch_executable id b).
  - destruct (section_appid section =? id); [|exact IH].
    destruct (section_launch section) as [entries|]; [|done].
    destruct (launch_tuples entries) as [ts|]; [|done].
    rewrite IH.
    destruct (get_launch_executable id a), (get_launch_executable id b); try done.
    by rewrite app_assoc.
Qed.

(** A tuple as line 44 builds them. *)
Lemma launch_tuple_clean (e : LaunchEntry) (t : LaunchInfo) :
  launch_tuple e = Some t →
  Text.has_backslash (working_dir t) = false
  ∧ Text.has_backslash (launch_executable t) = false
  ∧ Forall (λ word, Text.is_word word = true) (app_config_args t).
Proof.
  unfold launch_tuple. destruct (entry_executable e) as [exe|]; [|done].
  intros [= <-]. cbn [working_dir launch_executable app_config_args].
  assert (∀ path, Text.has_backslash (normalize_path path) = false) as Hclean.
  { intros [[|c r]|]; [done| |done]. apply backslash_to_slash_clean. }
  split; [exact (Hclean (entry_workingdir e))|].
  split; [exact (Hclean (Some exe))|].
  destruct (entry_arguments e) as [a|]; [|constructor].
  destruct a; [constructor | apply split_all_words].
Qed.

Lemma launch_tuples_clean (entries : list LaunchEntry) (ts : list LaunchInfo) :
  launch_tuples entries = Some ts →
  Forall (λ t, Text.has_backslash (working_dir t) = false
               ∧ Text.has_backslash (launch_executable t) = false
               ∧ Forall (λ word, Text.is_word word = true) (app_config_args t)) ts.
Proof.
  revert ts. induction entries as [|e rest IH]; intros ts; cbn [launch_tuples].
  - intros [= <-]. constructor.
  - destruct (os_allowed e); [|apply IH].
    destruct (launch_tuple e) as [t|] eqn:Ht; [|done].
    destruct (launch_tuples rest) as [ts'|]; [|done].
    intros [= <-]. constructor; [by eapply launch_tuple_clean | by apply IH].
Qed.

(** X7: in every tuple returned, the working directory and the
    executable are free of backslashes and the default arguments are
    words. *)
Theorem get_launch_executable_clean (id : Z) (appinfo : list AppSection)
    (infos : list LaunchInfo) :
  get_launch_executable id appinfo = Some infos →
  Forall (λ t, Text.has_backslash (working_dir t) = false
               ∧ Text.has_backslash (launch_executable t) = false
               ∧ Forall (λ word, Text.is_word word = true) (app_config_args t))
         infos.
Proof.
  revert infos. induction appinfo as [|app rest IH]; intros infos;
    cbn [get_launch_executable].
  - intros [= <-]. constructor.
  - destruct (section_appid app =? id); [|apply IH].
    destruct (section_launch app) as [entries|]; [|done].
    destruct (launch_tuples entries) as [ts|] eqn:Hts; [|done].
    destruct (get_launch_executable id rest) as [more|]; [|done].
    intros [= <-]. apply Forall_app. split.
    + by apply launch_tuples_clean in Hts.
    + by apply IH.
Qed.

Lemma get_launch_executable_clean_witness :
  Forall (λ t, Text.has_backslash (working_dir t) = false
               ∧ Text.has_backslash (launch_executable t) = false
               ∧ Forall (λ word, Text.is_word word = true) (app_config_args t))
    [ mkLaunchInfo (Some "Play") "bin/win64" "bin/win64/game.exe" None
        ["-novid"; "-dx11"];
      mkLaunchInfo None "" "editor.exe" None [] ].
Proof.
  apply (get_launch_executable_clean 620 Metadata.sections). reflexivity.
Defined.

Lemma starts_with_spec (p s : string) :
  Text.starts_with p s = true ↔ ∃ b, s = p +:+ b.
Proof.
  revert s. induction p as [|a p IH]; intros s.
  - split; [intros _; by exists s | by destruct s].
  - destruct s as [|c s]; cbn [Text.starts_with].
    + split; [done | intros [b Hb]; discriminate Hb].
    + rewrite andb_true_iff, IH. split.
      * intros [Hac [b ->]]. apply Ascii.eqb_eq in Hac as ->. by exists b.
      * intros [b Hb]. injection Hb as -> ->.
        split; [apply Ascii.eqb_refl | by exists b].
Qed.

Lemma is_infix_spec (needle hay : string) :
  Text.is_infix needle hay = true ↔ ∃ a b, hay = a +:+ needle +:+ b.
Proof.
  induction hay as [|c hay IH].
  - cbn [Text.is_infix]. rewrite orb_false_r, starts_with_spec. split.
    + intros [b Hb]. by exists "", b.
    + intros (a & b & Hab). destruct a; [by exists b | discriminate Hab].
  - cbn [Text.is_infix]. rewrite orb_true_iff, starts_with_spec, IH. split.
    + intros [[b Hb]|(a & b & ->)].
      * by exists "", b.
      * by exists (String c a), b.
    + intros (a & b & Hab). destruct a as [|c' a].
      * left. by exists b.
      * right. injection Hab as -> ->. by exists a, b.
Qed.

(** X8: the test of line 38 keeps an entry exactly when it has no
    [config], or no [oslist] in it, or an [oslist] in which the text
    "windows" occurs somewhere. *)
Theorem os_allowed_spec (e : LaunchEntry) :
  os_allowed e = true
  ↔ match entry_config e with
    | Some cfg =>
        match oslist cfg with
        | Some os => ∃ a b, os = a +:+ "windows" +:+ b
        | None => True
        end
    | None => True
    end.
Proof.
  unfold os_allowed. destruct (entry_config e) as [cfg|]; [|done].
  destruct (oslist cfg) as [os|]; [|done]. apply is_infix_spec.
Qed.

(** ** The composed environment *)

Lemma lookup_setdefault (env : gmap string string) (k v k' : string) :
  Env.setdefault k v env !! k' =
    if decide (k' = k) then Some (default v (env !! k)) else env !! k'.
Proof.
  unfold Env.setdefault.
  destruct (env !! k) as [e|] eqn:Hk; case_decide as Hd; subst; try done.
  - by rewrite lookup_insert_eq.
  - by rewrite lookup_insert_ne.
Qed.

Lemma lookup_append_path (env : gmap string string) (k v d k' : string) :
  Env.append_path k v d env !! k' =
    if decide (k' = k) then Some (append_args v (env !! k) d) else env !! k'.
Proof.
  unfold Env.append_path, Env.setitem. case_decide as Hd; subst.
  - by rewrite lookup_insert_eq.
  - by rewrite lookup_insert_ne.
Qed.

Lemma lookup_prepend_path (env : gmap string string) (k v d k' : string) :
  Env.prepend_path k v d env !! k' =
    if decide (k' = k) then Some (prepend_args v (env !! k) d) else env !! k'.
Proof.
  unfold Env.prepend_path, Env.setitem. case_decide as Hd; subst.
  - by rewrite lookup_insert_eq.
  - by rewrite lookup_insert_ne.
Qed.

(** One rule of [compose_env] read at a name: the rule's own name gives
    the new value, any other name falls through to the rules before. *)
Ltac through_rule :=
  first [ rewrite lookup_setdefault
        | rewrite lookup_append_path
        | rewrite lookup_prepend_path ];
  case_decide; [try discriminate | try done].

Ltac through_rules := unfold compose_env; cbv zeta; repeat through_rule.

(** X9: a name that is not one of the fourteen set by lines 186-200
    has, in the composed environment, the value (or absence) it had in
    the base environment. *)
Theorem compose_env_other_names (c : Catalog) (base : gmap string string)
    (k : string) :
  k ∉ composed_names →
  compose_env c base !! k = base !! k.
Proof.
  intros Hk. unfold composed_names in Hk.
  repeat (apply not_elem_of_cons in Hk as [? Hk]).
  unfold compose_env. cbv zeta.
  repeat (first [ rewrite lookup_setdefault
                | rewrite lookup_append_path
                | rewrite lookup_prepend_path ];
          case_decide; [done|]).
  reflexivity.
Qed.

Lemma compose_env_other_names_witness :
  compose_env Scenario.one_configuration {[ "HOME" := "/home/user" ]} !! "HOME"
  = Some "/home/user".
Proof.
  transitivity (({[ "HOME" := "/home/user" ]} : gmap string string) !! "HOME");
    [|reflexivity].
  apply (compose_env_other_names Scenario.one_configuration
           {[ "HOME" := "/home/user" ]} "HOME").
  unfold composed_names. intros H.
  repeat (apply elem_of_cons in H as [Heq|H]; [discriminate Heq|]).
  by apply elem_of_nil in H.
Defined.

Lemma dom_setdefault (env : gmap string string) (k v : string) :
  dom (Env.setdefault k v env) = {[k]} ∪ dom env.
Proof.
  unfold Env.setdefault. destruct (env !! k) as [e|] eqn:Hk.
  - apply elem_of_dom_2 in Hk. set_solver.
  - apply dom_insert_L.
Qed.

Lemma dom_append_path (env : gmap string string) (k v d : string) :
  dom (Env.append_path k v d env) = {[k]} ∪ dom env.
Proof. apply dom_insert_L. Qed.

Lemma dom_prepend_path (env : gmap string string) (k v d : string) :
  dom (Env.prepend_path k v d env) = {[k]} ∪ dom env.
Proof. apply dom_insert_L. Qed.

(** X10: the composed environment defines exactly the names of the
    base environment and the fourteen names of lines 186-200: no rule
    removes a variable and each of the fourteen is set. *)
Theorem compose_env_dom (c : Catalog) (base : gmap string string) :
  dom (compose_env c base) = dom base ∪ list_to_set composed_names.
Proof.
  unfold compose_env. cbv zeta.
  repeat first [ rewrite dom_setdefault | rewrite dom_append_path
               | rewrite dom_prepend_path ].
  unfold composed_names. cbn [list_to_set foldr]. set_solver.
Qed.

(** X11: the four path-like variables are always rewritten: [PATH] and
    [WINEDLLOVERRIDES] get the new value in front of the existing one,
    [WINEDLLPATH] and [GST_PLUGIN_SYSTEM_PATH_1_0] get it behind; an
    unset or empty variable becomes the new value alone. *)
Theorem compose_env_path_values (c : Catalog) (base : gmap string string) :
  let proton := install_path (proton_app c) in
  let front (v d : string) (old : option string) : string :=
    match old with
    | Some e => if decide (e = "") then v else v +:+ d +:+ e
    | None => v
    end in
  let behind (v d : string) (old : option string) : string :=
    match old with
    | Some e => if decide (e = "") then v else e +:+ d +:+ v
    | None => v
    end in
  compose_env c base !! "PATH"
  = Some (front (proton +:+ "/files/bin") ":" (base !! "PATH"))
  ∧ compose_env c base !! "WINEDLLOVERRIDES"
    = Some (front "steam.exe=b;dotnetfx35.exe=b;dxvk_config=n;d3d11=n;d3d10=n;d3d10core=n;d3d10_1=n;d3d9=n;dxgi=n"
              ";" (base !! "WINEDLLOVERRIDES"))
  ∧ compose_env c base !! "WINEDLLPATH"
    = Some (behind (proton +:+ "/files/lib64/wine:" +:+ proton +:+ "/files/lib/wine")
              ":" (base !! "WINEDLLPATH"))
  ∧ compose_env c base !! "GST_PLUGIN_SYSTEM_PATH_1_0"
    = Some (behind (proton +:+ "/files/lib64/gstreamer-1.0:" +:+ proton
                    +:+ "/files/lib/gstreamer-1.0")
              ":" (base !! "GST_PLUGIN_SYSTEM_PATH_1_0")).
Proof.
  cbv zeta. repeat split; through_rules;
    rewrite ?append_args_eq, ?prepend_args_eq; reflexivity.
Qed.

Lemma compose_env_kept (c : Catalog) (base : gmap string string) (k v : string) :
  k ∈ defaulted_names → base !! k = Some v → compose_env c base !! k = Some v.
Proof.
  intros Hk Hv. unfold defaulted_names in Hk.
  repeat (apply elem_of_cons in Hk as [->|Hk];
          [through_rules; by rewrite Hv|]).
  by apply elem_of_nil in Hk.
Qed.

Lemma compose_env_defaulted_set (c : Catalog) (base : gmap string string)
    (k : string) :
  k ∈ defaulted_names → is_Some (compose_env c base !! k).
Proof.
  intros Hk. unfold defaulted_names in Hk.
  repeat (apply elem_of_cons in Hk as [->|Hk]; [through_rules; by eexists|]).
  by apply elem_of_nil in Hk.
Qed.

(** X12: a variable of the ten that are only given a default keeps the
    value the caller set, the empty string included; in particular an
    existing [LD_LIBRARY_PATH] is kept as it is and never combined with
    the Proton directories, which are used only when it is unset. *)
Theorem compose_env_keeps_defaults (c : Catalog) (base : gmap string string) :
  (∀ k v, k ∈ defaulted_names → base !! k = Some v →
          compose_env c base !! k = Some v)
  ∧ (base !! "LD_LIBRARY_PATH" = None →
     compose_env c base !! "LD_LIBRARY_PATH"
     = Some (install_path (proton_app c) +:+ "/files/lib64/:"
             +:+ install_path (proton_app c) +:+ "/files/lib/:"
             +:+ install_path (game_app c))).
Proof.
  split.
  - intros k v. apply compose_env_kept.
  - intros Hv. through_rules. by rewrite Hv.
Qed.

Lemma compose_env_keeps_defaults_witness :
  compose_env Scenario.one_configuration {[ "WINEDEBUG" := "" ]} !! "WINEDEBUG"
  = Some ""
  ∧ compose_env Scenario.one_configuration ∅ !! "LD_LIBRARY_PATH"
    = Some "/steam/common/Proton/files/lib64/:/steam/common/Proton/files/lib/:/steam/common/Game".
Proof.
  split.
  - apply (proj1 (compose_env_keeps_defaults Scenario.one_configuration
                    {[ "WINEDEBUG" := "" ]}) "WINEDEBUG" "").
    + unfold defaulted_names. apply elem_of_cons. by left.
    + reflexivity.
  - apply (proj2 (compose_env_keeps_defaults Scenario.one_configuration ∅)).
    reflexivity.
Defined.

Lemma append_nonempty_r (a b : string) : b ≠ "" → a +:+ b ≠ "".
Proof. destruct a; [done|]. intros _. discriminate. Qed.

Lemma append_args_nonempty (x : string) (y : option string) (d : string) :
  x ≠ "" → append_args x y d ≠ "".
Proof.
  intros Hx. rewrite append_args_eq. destruct y as [e|]; [|done].
  case_decide; [done|]. destruct x; [done | discriminate].
Qed.

(** X13: composing is not idempotent.  Applied to its own result, it
    puts the Proton directory in front of [PATH] a second time, while
    the ten variables that are only given a default stay as they are. *)
Theorem compose_env_twice (c : Catalog) (base : gmap string string) :
  let once := compose_env c base in
  let twice := compose_env c once in
  (∃ first,
     once !! "PATH" = Some first
     ∧ twice !! "PATH"
       = Some ((install_path (proton_app c) +:+ "/files/bin") +:+ ":" +:+ first))
  ∧ (∀ k, k ∈ defaulted_names → twice !! k = once !! k).
Proof.
  cbv zeta. split.
  - exists (append_args (install_path (proton_app c) +:+ "/files/bin")
              (base !! "PATH") ":").
    assert (∀ env, compose_env c env !! "PATH"
                   = Some (append_args (install_path (proton_app c) +:+ "/files/bin")
                             (env !! "PATH") ":")) as Hpath
      by (intros env; by through_rules).
    split; [apply Hpath|]. rewrite (Hpath (compose_env c base)), Hpath.
    f_equal. rewrite (append_args_eq _ (Some _)).
    case_decide as Hempty; [|done].
    exfalso. revert Hempty. apply append_args_nonempty, append_nonempty_r.
    discriminate.
  - intros k Hk.
    destruct (compose_env_defaulted_set c base k Hk) as [v Hv].
    rewrite Hv. by apply compose_env_kept.
Qed.

(** ** From the command line to line 126 *)

Lemma find_game_app_fold (id : Z) (apps : list SteamApp) (found : option SteamApp) :
  fold_left (λ found app, if appid app =? id then Some app else found) apps found
  = match last (filter (λ app, appid app = id) apps) with
    | Some app => Some app
    | None => found
    end.
Proof.
  revert found. induction apps as [|app apps IH]; intros found; [done|].
  cbn [fold_left]. rewrite IH, filter_cons.
  destruct (Z.eqb_spec (appid app) id) as [Heq|Hne].
  - rewrite decide_True by done. rewrite last_cons.
    by destruct (last (filter _ apps)).
  - by rewrite decide_False by done.
Qed.

(** X14: among the installed applications, the one chosen for an id
    is the last that carries it; none is chosen exactly when none
    carries it. *)
Theorem find_game_app_last (id : Z) (apps : list SteamApp) :
  find_game_app id apps = last (filter (λ app, appid app = id) apps)
  ∧ (find_game_app id apps = None ↔ Forall (λ app, appid app ≠ id) apps).
Proof.
  assert (find_game_app id apps = last (filter (λ app, appid app = id) apps))
    as Hlast.
  { unfold find_game_app. rewrite find_game_app_fold.
    by destruct (last (filter _ apps)). }
  split; [exact Hlast|]. rewrite Hlast, last_None. split.
  - intros Hnil. apply Forall_forall. intros app Hin Heq.
    assert (app ∈ filter (λ app, appid app = id) apps) as Hf
      by (by apply list_elem_of_filter).
    rewrite Hnil in Hf. by apply elem_of_nil in Hf.
  - intros Hall. apply elem_of_nil_inv. intros app Hin.
    apply list_elem_of_filter in Hin as [Heq Hin].
    rewrite Forall_forall in Hall. by apply (Hall app Hin).
Qed.



(** ** What a run leaves untouched *)






Lemma evolves_set_clock (t : Q) (later : list Q) (w : World) :
  clock w = t :: later → evolves 0 w (set_clock later w).
Proof.
  intros Hc. unfold evolves. repeat split; try done.
  - exists []. by rewrite app_nil_r.
  - by exists 0%nat.
  - exists 1%nat. by rewrite Hc.
  - by exists 0%nat.
Qed.




















(** ** The run, step by step *)

Lemma attach_debugger_outcome (pid : Z) (w : World) :
  attach_debugger pid w =
    let w1 := log (Call (gdb_command pid)) w in
    match exec w (gdb_command pid) with
    | Raises e => (Exc e, w1)
    | Exits _ =>
        let w2 := log (Call (kill_command pid)) w1 in
        match exec w (kill_command pid) with
        | Raises e => (Exc e, w2)
        | Exits _ =>
            let w3 := log (Remove script_path) w2 in
            match files w !! script_path with
            | Some _ => (Val tt, set_files (delete script_path (files w)) w3)
            | None => (Exc OSError, w3)
            end
        end
    end.
Proof.
  unfold attach_debugger, bind, subprocess_call, os_remove, gdb_command,
    kill_command. cbn zeta.
  destruct (exec w _) as [status|e]; [|done].
  change (exec (log ?e w)) with (exec w).
  destruct (exec w _) as [status'|e]; [|done].
  change (files (log ?e1 (log ?e2 w))) with (files w).
  by destruct (files w !! script_path).
Qed.

Lemma launch_and_debug_outcome (c : Catalog) (info : LaunchInfo)
    (target : LaunchTarget) (w : World) :
  launch_and_debug c info target w =
    let process_name := take 15 (basename (launch_executable info)) in
    let w1 := log (Popen (wine_command c target) (target_working_dir target)
                         (compose_env c (environ w))) w in
    match exec w (wine_command c target) with
    | Raises e => (Exc e, w1)
    | Exits _ =>
        if lookup_refused w
        then (Exc OSError, after_lookups 0 2 process_name w1)
        else
          match first_match (polled_in w) with
          | None =>
              (Ret, log (LogError (not_found_report process_name))
                      (after_lookups (length (polled_in w))
                         (S (S (length (polled_in w)))) process_name w1))
          | Some (k, [p]) =>
              attach_debugger (Z.pos p)
                (after_lookups (S k) (S (S k)) process_name w1)
          | Some (k, _) =>
              (Exc ValueError, after_lookups (S k) (S (S k)) process_name w1)
          end
    end.
Proof.
  unfold launch_and_debug, bind, subprocess_Popen. cbn zeta.
  destruct (exec w _) as [status|e]; [|done].
  rewrite resolve_pid_outcome. cbn zeta. rewrite polled_in_log, lookup_refused_log.
  destruct (lookup_refused w); [done|].
  by destruct (first_match (polled_in w)) as [[k [|p [|q more]]]|].
Qed.

Lemma prepare_outcome (joinpath : string → string → string) (c : Catalog)
    (w : World) :
  prepare joinpath c w =
    match app_infos c with
    | [] =>
        (Ret, log (LogError ("Cannot find launch executable from "
                             +:+ joinpath (joinpath (steam_path c) "appcache")
                                   "appinfo.vdf")) w)
    | infos =>
        match select_configuration infos w with
        | (Val info, w0) =>
            match remote w0 with
            | Some body =>
                (Val (info, build_target joinpath c info),
                 fetched_and_written body w0)
            | None =>
                let w1 := log (Fetch winereload_url winereload_path) w0 in
                match partial w0 with
                | Some received =>
                    (Exc URLError,
                     set_files (<[winereload_path := received]> (files w0)) w1)
                | None => (Exc URLError, w1)
                end
            end
        | (Ret, w0) => (Ret, w0)
        | (Exc e, w0) => (Exc e, w0)
        end
    end.
Proof.
  unfold prepare. destruct (app_infos c) as [|first others]; [done|].
  unfold bind.
  destruct (select_configuration (first :: others) w) as [[info| |e] w0];
    [|done..].
  unfold urlretrieve, write_file, pure.
  destruct (remote w0); [done|]. by destruct (partial w0).
Qed.

Lemma spawn_settings_log (e : Event) (w : World) :
  spawn_settings (trace (log e w))
  = (spawn_settings (trace w)
     ++ match e with Popen _ cwd env => [(cwd, env)] | _ => [] end)%list.
Proof. unfold spawn_settings. cbn [trace log]. rewrite omap_app. by destruct e. Qed.

(** Reading the log, the spawn settings included. *)
Ltac logged_all :=
  cbn [fst snd];
  repeat first
    [ rewrite trace_set_files | rewrite trace_set_stdin
    | rewrite trace_set_clock | rewrite trace_set_procs
    | rewrite spawn_settings_log ];
  logged.

(** The selection leaves everything but standard input and the log as
    it is, and logs nothing but errors. *)
Lemma select_configuration_quiet (infos : list LaunchInfo) (w : World) :
  let r := select_configuration infos w in
  remote r.2 = remote w
  ∧ files r.2 = files w
  ∧ fetches (trace r.2) = fetches (trace w)
  ∧ popens (trace r.2) = popens (trace w)
  ∧ calls (trace r.2) = calls (trace w)
  ∧ spawn_settings (trace r.2) = spawn_settings (trace w)
  ∧ environ r.2 = environ w.
Proof.
  cbn zeta.
  assert (∀ (typed : list string),
            let w' := log (LogError "Invalid app configuration.")
                        (set_stdin typed w) in
            remote w' = remote w ∧ files w' = files w
            ∧ fetches (trace w') = fetches (trace w)
            ∧ popens (trace w') = popens (trace w)
            ∧ calls (trace w') = calls (trace w)
            ∧ spawn_settings (trace w') = spawn_settings (trace w)
            ∧ environ w' = environ w) as Hlog.
  { intros typed. cbn zeta. by logged_all. }
  unfold select_configuration.
  destruct infos as [|first [|second others]]; [| done |];
    unfold bind, input, safe_cast, py_int;
    (destruct (stdin w) as [|line rest]; [done|]);
    (destruct (int_of_str line) as [i|]; cbn [pure]; [|apply Hlog]);
    (destruct (in_range i _); [|apply Hlog]);
    by destruct (_ !! Z.to_nat i).
Qed.

Lemma after_lookups_spawn_settings (n used : nat) (process_name : string)
    (w : World) :
  spawn_settings (trace (after_lookups n used process_name w))
  = spawn_settings (trace w).
Proof.
  rewrite after_lookups_trace. unfold spawn_settings.
  rewrite omap_app, omap_replicate_None by reflexivity. by rewrite app_nil_r.
Qed.

Lemma files_log (e : Event) (w : World) : files (log e w) = files w.
Proof. reflexivity. Qed.

Lemma files_set_files (f : gmap string string) (w : World) :
  files (set_files f w) = f.
Proof. reflexivity. Qed.

(** What lines 186-223 add to the log and do to the files. *)
Lemma launch_and_debug_log (c : Catalog) (info : LaunchInfo)
    (target : LaunchTarget) (w : World) :
  let r := launch_and_debug c info target w in
  fetches (trace r.2) = fetches (trace w)
  ∧ (∀ path, path ≠ script_path → files r.2 !! path = files w !! path)
  ∧ spawn_settings (trace r.2)
    = (spawn_settings (trace w)
       ++ [(target_working_dir target, compose_env c (environ w))])%list
  ∧ (calls (trace r.2) = calls (trace w)
     ∨ ∃ p : positive,
         calls (trace r.2) = (calls (trace w) ++ [gdb_command (Z.pos p)])%list
         ∨ calls (trace r.2)
           = (calls (trace w)
              ++ [gdb_command (Z.pos p); kill_command (Z.pos p)])%list).
Proof.
  cbn zeta. rewrite launch_and_debug_outcome. cbn zeta.
  set (name := take 15 (basename (launch_executable info))).
  set (w1 := log _ w).
  assert (fetches (trace w1) = fetches (trace w)) as Hf1 by (subst w1; by logged).
  assert (calls (trace w1) = calls (trace w)) as Hc1 by (subst w1; by logged).
  assert (spawn_settings (trace w1)
          = (spawn_settings (trace w)
             ++ [(target_working_dir target, compose_env c (environ w))])%list)
    as Hs1 by (subst w1; by rewrite spawn_settings_log).
  assert (files w1 = files w) as Hfiles1 by reflexivity.
  assert (∀ n used,
            let w2 := after_lookups n used name w1 in
            fetches (trace w2) = fetches (trace w)
            ∧ calls (trace w2) = calls (trace w)
            ∧ spawn_settings (trace w2)
              = (spawn_settings (trace w)
                 ++ [(target_working_dir target, compose_env c (environ w))])%list
            ∧ files w2 = files w
            ∧ exec w2 = exec w) as Hafter.
  { intros n used. cbn zeta.
    destruct (after_lookups_quiet n used name w1)
      as (_ & Hc & _ & _ & _ & Hf & Hfiles & Hx & _).
    rewrite after_lookups_spawn_settings. cbn zeta in *.
    by rewrite Hc, Hf, Hfiles, Hx, Hf1, Hc1, Hs1. }
  destruct (exec w (wine_command c target)) as [status|e];
    [|cbn [snd]; rewrite Hf1, Hc1, Hs1; auto].
  destruct (lookup_refused w);
    [|destruct (first_match (polled_in w)) as [[k [|p [|q more]]]|]].
  - destruct (Hafter 0%nat 2%nat) as (Hf & Hc & Hs & Hfiles & _).
    cbn [snd]. cbn zeta in *. rewrite Hf, Hc, Hs, Hfiles. auto.
  - destruct (Hafter (S k) (S (S k))) as (Hf & Hc & Hs & Hfiles & _).
    cbn [snd]. cbn zeta in *. rewrite Hf, Hc, Hs, Hfiles. auto.
  - destruct (Hafter (S k) (S (S k))) as (Hf & Hc & Hs & Hfiles & Hx).
    cbn zeta in *. set (w2 := after_lookups _ _ _ w1) in *.
    rewrite attach_debugger_outcome. cbn zeta. rewrite Hx, Hfiles.
    destruct (exec w (gdb_command (Z.pos p))) as [s2|e];
      [destruct (exec w (kill_command (Z.pos p))) as [s3|e];
       [destruct (files w !! script_path) eqn:Hscript|]|];
      logged_all; rewrite Hf, Hc, Hs;
      (split; [done|]);
      (split;
       [intros path Hpath;
        rewrite ?files_set_files, ?files_log, ?Hfiles, ?lookup_delete_ne; done|]);
      (split; [done|]); right; exists p; auto.
  - destruct (Hafter (S k) (S (S k))) as (Hf & Hc & Hs & Hfiles & _).
    cbn [snd]. cbn zeta in *. rewrite Hf, Hc, Hs, Hfiles. auto.
  - destruct (Hafter (length (polled_in w)) (S (S (length (polled_in w)))))
      as (Hf & Hc & Hs & Hfiles & _).
    logged_all. cbn zeta in *. rewrite Hf, Hc, Hs.
    rewrite files_log, Hfiles. auto.
Qed.

Lemma select_configuration_member (infos : list LaunchInfo) (info : LaunchInfo)
    (w w0 : World) :
  select_configuration infos w = (Val info, w0) → info ∈ infos.
Proof.
  unfold select_configuration.
  destruct infos as [|first [|second others]];
    [| intros [= <- _]; apply elem_of_cons; by left |];
    unfold bind, input, safe_cast, py_int;
    (destruct (stdin w) as [|line rest]; [done|]);
    (destruct (int_of_str line) as [i|]; cbn [pure]; [|done]);
    (destruct (in_range i _); [|done]);
    (destruct (_ !! Z.to_nat i) as [found|] eqn:Hfound; [|done]);
    intros [= <- _]; by eapply list_elem_of_lookup_2.
Qed.

(** What lines 126-223 add to the log, and what they leave of the
    helper script. *)
Lemma main_log (joinpath : string → string → string) (c : Catalog) (w : World) :
  let r := main joinpath c w in
  (calls (trace r.2) = calls (trace w)
   ∨ ∃ p : positive,
       calls (trace r.2) = (calls (trace w) ++ [gdb_command (Z.pos p)])%list
       ∨ calls (trace r.2)
         = (calls (trace w) ++ [gdb_command (Z.pos p); kill_command (Z.pos p)])%list)
  ∧ (fetches (trace r.2) = fetches (trace w)
     ∨ (fetches (trace r.2) = (fetches (trace w) ++ [winereload_url])%list
        ∧ ∀ body, remote w = Some body →
                  files r.2 !! winereload_path = Some body))
  ∧ (spawn_settings (trace r.2) = spawn_settings (trace w)
     ∨ ∃ info, info ∈ app_infos c
               ∧ spawn_settings (trace r.2)
                 = (spawn_settings (trace w)
                    ++ [(target_working_dir (build_target joinpath c info),
                         compose_env c (environ w))])%list).
Proof.
  cbn zeta. rewrite main_unfold, prepare_outcome.
  destruct (app_infos c) as [|first others] eqn:Hinfos.
  { logged_all. auto. }
  rewrite <- Hinfos.
  destruct (select_configuration_quiet (app_infos c) w)
    as (Hremote & Hfiles & Hf & _ & Hc & Hs & Henv).
  cbn zeta in *.
  destruct (select_configuration (app_infos c) w) as [[info| |e] w0] eqn:Hsel;
    cbn [fst snd] in *; [|auto..].
  apply select_configuration_member in Hsel.
  destruct (remote w0) as [body|] eqn:Hbody.
  - destruct (fetched_and_written_facts body w0)
      as (_ & Hf1 & _ & _ & Hc1 & _ & _ & Hhelper & _).
    assert (spawn_settings (trace (fetched_and_written body w0))
            = spawn_settings (trace w0)) as Hs1
      by (unfold fetched_and_written; by logged_all).
    assert (environ (fetched_and_written body w0) = environ w0) as Henv1
      by reflexivity.
    cbn zeta in *. set (w1 := fetched_and_written body w0) in *.
    assert (∀ found, remote w = Some found → Some body = Some found) as Hsame
      by (intros found Hfound; by rewrite Hremote).
    destruct (stdin w1) as [|line rest].
    { cbn [snd]. rewrite Hc1, Hf1, Hs1, Hc, Hf, Hs, Hhelper.
      split; [auto|]. split; [|auto]. right. auto. }
    destruct (declined (upper line)).
    { logged_all. rewrite Hc1, Hf1, Hs1, Hc, Hf, Hs.
      split; [auto|]. split; [|auto]. right. split; [done|].
      intros found Hfound. rewrite <- (Hsame found Hfound). exact Hhelper. }
    change (_, build_target joinpath c info).1 with info.
    change (info, build_target joinpath c info).2 with (build_target joinpath c info).
    destruct (launch_and_debug_log c info (build_target joinpath c info)
                (set_stdin rest w1)) as (Hf2 & Hfiles2 & Hs2 & Hc2).
    cbn zeta in *. rewrite trace_set_stdin in Hf2, Hs2, Hc2.
    change (environ (set_stdin rest w1)) with (environ w1) in Hs2.
    change (files (set_stdin rest w1)) with (files w1) in Hfiles2.
    rewrite Hf2, Hs2, Hf1, Hs1, Hf, Hs, Henv1, Henv.
    rewrite Hc1, Hc in Hc2. split; [exact Hc2|]. split.
    + right. split; [done|]. intros found Hfound.
      rewrite Hfiles2 by done. rewrite <- (Hsame found Hfound). exact Hhelper.
    + right. by exists info.
  - cbn zeta.
    destruct (partial w0); logged_all; rewrite Hc, Hf, Hs;
      (split; [auto|]); (split; [|auto]);
      right; (split; [done|]); intros found Hfound;
      rewrite <- Hremote in Hfound; discriminate Hfound.
Qed.

(** X17: the debugger and [kill] are called in this order and for the
    same process: a run calls nothing, or [gdb] on a pid, or [gdb] and
    then [kill -9] on that pid; the pid is positive, so [kill] is never
    given 0 or a negative number. *)
Theorem debugger_then_kill (joinpath : string → string → string)
    (c : Catalog) (w : World) :
  let r := main joinpath c w in
  calls (trace r.2) = calls (trace w)
  ∨ ∃ p : positive,
      calls (trace r.2)
      = (calls (trace w) ++ [["gdb"; "-x"; "/tmp/.protongdb_args"; "-p";
                              str_of_int (Z.pos p)]])%list
      ∨ calls (trace r.2)
        = (calls (trace w)
           ++ [["gdb"; "-x"; "/tmp/.protongdb_args"; "-p"; str_of_int (Z.pos p)];
               ["kill"; "-9"; str_of_int (Z.pos p)]])%list.
Proof.
  cbn zeta. destruct (main_log joinpath c w) as ([Hsame|[p Hp]] & _).
  - by left.
  - right. exists p. exact Hp.
Qed.

(** X18: the helper script is never removed.  Once it has been
    fetched, it is under [/tmp/winereload.py] with the content served
    when [main] ends, on every exit path, normal completion included. *)
Theorem helper_script_stays (joinpath : string → string → string)
    (c : Catalog) (w : World) (body : string) :
  remote w = Some body →
  let r := main joinpath c w in
  fetches (trace r.2) = fetches (trace w)
  ∨ (fetches (trace r.2) = (fetches (trace w) ++ [winereload_url])%list
     ∧ files r.2 !! winereload_path = Some body).
Proof.
  intros Hbody. cbn zeta.
  destruct (main_log joinpath c w) as (_ & [Hsame|[Hfetched Hfile]] & _).
  - by left.
  - right. split; [exact Hfetched | by apply Hfile].
Qed.

Lemma helper_script_stays_witness :
  files (main Scenario.joinpath Scenario.one_configuration
           (Scenario.appears_late ["Y"] Scenario.all_run)).2 !! winereload_path
  = Some "# wine-reload".
Proof.
  destruct (helper_script_stays Scenario.joinpath Scenario.one_configuration
              (Scenario.appears_late ["Y"] Scenario.all_run) "# wine-reload"
              eq_refl) as [Hnone|[_ Hfile]].
  - vm_compute in Hnone. discriminate Hnone.
  - exact Hfile.
Defined.

(** X19: a run starts at most one process, and when it does, the
    process gets the working directory of one of the configurations of
    the catalog and the environment composed from [os.environ] as it was
    when the run began. *)
Theorem spawned_once_with_composed_env (joinpath : string → string → string)
    (c : Catalog) (w : World) :
  let r := main joinpath c w in
  spawn_settings (trace r.2) = spawn_settings (trace w)
  ∨ ∃ info, info ∈ app_infos c
            ∧ spawn_settings (trace r.2)
              = (spawn_settings (trace w)
                 ++ [(if decide (working_dir info = "")
                      then install_path (game_app c)
                      else joinpath (install_path (game_app c)) (working_dir info),
                      compose_env c (environ w))])%list.
Proof.
  cbn zeta. destruct (main_log joinpath c w) as (_ & _ & [Hsame|(info & Hin & Hs)]).
  - by left.
  - right. exists info. split; [done|]. rewrite Hs.
    unfold build_target. cbn [target_working_dir].
    by destruct (working_dir info).
Qed.

(** X20: the complete run.  With one configuration, the helper script
    served, an answer that does not decline, the target started, one
    matching process found by the poll number [k] after empty ones, and
    [gdb] and [kill] returning, [main] runs to its end having fetched the
    helper script, written the debugger script, started the target,
    looked the process up [k + 1] times, called [gdb] and [kill -9] on
    the pid found and removed the debugger script, which is gone while
    the helper script remains. *)
Theorem complete_run (joinpath : string → string → string)
    (c : Catalog) (info : LaunchInfo) (w : World)
    (line body : string) (rest : list string)
    (k : nat) (p : positive) (s1 s2 s3 : Z) :
  app_infos c = [info] →
  remote w = Some body →
  stdin w = line :: rest →
  declined (upper line) = false →
  exec w (wine_command c (build_target joinpath c info)) = Exits s1 →
  polled_in w !! k = Some [p] →
  (∀ j, (j < k)%nat → polled_in w !! j = Some []) →
  exec w (gdb_command (Z.pos p)) = Exits s2 →
  exec w (kill_command (Z.pos p)) = Exits s3 →
  let r := main joinpath c w in
  r.1 = Val tt
  ∧ trace r.2
    = (trace w
       ++ [Fetch winereload_url winereload_path;
           WriteFile script_path;
           Popen (wine_command c (build_target joinpath c info))
                 (target_working_dir (build_target joinpath c info))
                 (compose_env c (environ w))]
       ++ replicate (S k)
            (CheckOutput ["pidof"; take 15 (basename (launch_executable info))])
       ++ [Call (gdb_command (Z.pos p));
           Call (kill_command (Z.pos p));
           Remove script_path])%list
  ∧ files r.2 !! script_path = None
  ∧ files r.2 !! winereload_path = Some body
  ∧ stdin r.2 = rest.
Proof.
  intros Hinfos Hbody Hin Hyes Hwine Hk Hbefore Hgdb Hkill. cbn zeta.
  rewrite main_unfold, prepare_outcome, Hinfos.
  change (select_configuration [info] w) with (Val info, w).
  cbv beta iota. rewrite Hbody.
  change (stdin (fetched_and_written body w)) with (stdin w).
  rewrite Hin, Hyes.
  change (_, build_target joinpath c info).1 with info.
  change (info, build_target joinpath c info).2 with (build_target joinpath c info).
  rewrite launch_and_debug_outcome. cbn zeta.
  change (exec (set_stdin rest (fetched_and_written body w))) with (exec w).
  change (polled_in (set_stdin rest (fetched_and_written body w)))
    with (polled_in w).
  change (lookup_refused (set_stdin rest (fetched_and_written body w)))
    with (lookup_refused w).
  rewrite Hwine, (polled_in_Some w k [p] Hk).
  rewrite (first_match_Some _ k [p] Hk ltac:(done) Hbefore).
  rewrite attach_debugger_outcome. cbn zeta.
  change (exec (after_lookups ?n ?u ?name (log ?e (set_stdin rest
            (fetched_and_written body w))))) with (exec w).
  rewrite Hgdb, Hkill.
  change (files (after_lookups ?n ?u ?name (log ?e (set_stdin rest
            (fetched_and_written body w)))))
    with (<[script_path := script_text gdb_commands]>
            (<[winereload_path := body]> (files w))).
  rewrite lookup_insert_eq. cbn [fst snd].
  split; [done|]. split; [|split; [|split]].
  - rewrite trace_set_files. cbn [trace log]. rewrite after_lookups_trace.
    cbn [trace log set_stdin fetched_and_written set_files].
    by rewrite <- !app_assoc.
  - rewrite files_set_files. apply lookup_delete_eq.
  - rewrite files_set_files, lookup_delete_ne by done.
    rewrite lookup_insert_ne by done. apply lookup_insert_eq.
  - reflexivity.
Qed.

Lemma complete_run_witness :
  (main Scenario.joinpath Scenario.one_configuration
     (Scenario.appears_late ["Y"] Scenario.all_run)).1 = Val tt.
Proof.
  refine (proj1 (complete_run Scenario.joinpath Scenario.one_configuration
                   Scenario.play (Scenario.appears_late ["Y"] Scenario.all_run)
                   "Y" "# wine-reload" [] 1%nat 4242%positive 0 0 0
                   eq_refl eq_refl eq_refl eq_refl eq_refl eq_refl _
                   eq_refl eq_refl)).
  intros [|j] Hj; [reflexivity | lia].
Defined.

(** ** The looked-up name and the lookups *)

Lemma take_length (n : nat) (s : string) : (String.length (take n s) ≤ n)%nat.
Proof.
  revert s. induction n as [|n IH]; intros s; [cbn; lia|].
  destruct s as [|c r]; cbn; [lia|]. specialize (IH r). lia.
Qed.

Lemma has_slash_take (n : nat) (s : string) :
  has_slash s = false → has_slash (take n s) = false.
Proof.
  revert s. induction n as [|n IH]; intros s; [done|].
  destruct s as [|c r]; [done|]. cbn [has_slash take]. intros H.
  apply orb_false_iff in H as [Hc Hr]. by rewrite Hc, IH.
Qed.

Lemma basename_no_slash (p : string) : has_slash (basename p) = false.
Proof.
  induction p as [|c r IH]; [done|]. cbn [basename].
  destruct (Ascii.eqb c "/" || has_slash r)%bool eqn:Hc; [exact IH|].
  cbn [has_slash]. exact Hc.
Qed.

Lemma basename_plain (p : string) : has_slash p = false → basename p = p.
Proof.
  destruct p as [|c r]; [done|]. cbn [has_slash basename]. by intros ->.
Qed.

Lemma has_slash_app (a b : string) :
  has_slash (a +:+ b) = (has_slash a || has_slash b)%bool.
Proof.
  induction a as [|c a IH]; [done|].
  change (String c a +:+ b) with (String c (a +:+ b)).
  cbn [has_slash]. by rewrite IH, orb_assoc.
Qed.

Lemma basename_join (dir file : string) :
  has_slash file = false → basename (dir +:+ "/" +:+ file) = file.
Proof.
  intros Hfile. induction dir as [|c dir IH].
  - change ("" +:+ "/" +:+ file) with (String "/"%char file).
    cbn [basename]. rewrite Ascii.eqb_refl. cbn [orb]. by apply basename_plain.
  - change (String c dir +:+ "/" +:+ file) with (String c (dir +:+ "/" +:+ file)).
    cbn [basename]. rewrite has_slash_app.
    change (has_slash ("/" +:+ file)) with true.
    by rewrite !orb_true_r.
Qed.

(** X21: the name looked up in the process table has at most fifteen
    characters and no ['/'], whatever the executable path is. *)
Theorem process_name_short (executable : string) :
  (String.length (take 15 (basename executable)) ≤ 15)%nat
  ∧ has_slash (take 15 (basename executable)) = false.
Proof.
  split; [apply take_length|]. apply has_slash_take, basename_no_slash.
Qed.

(** X22: for an executable given as a directory and a file name, the
    name looked up is made of the first fifteen characters of the file
    name; the directory plays no part. *)
Theorem process_name_of_file (dir file : string) :
  has_slash file = false →
  take 15 (basename (dir +:+ "/" +:+ file)) = take 15 file.
Proof. intros Hfile. by rewrite basename_join. Qed.

Lemma process_name_of_file_witness :
  take 15 (basename ("bin/win64" +:+ "/" +:+ "GameLauncher-Win64.exe"))
  = "GameLauncher-Wi".
Proof.
  apply (process_name_of_file "bin/win64" "GameLauncher-Win64.exe"). reflexivity.
Defined.

Lemma first_match_bound (seen : list (list positive)) (k : nat)
    (pids : list positive) :
  first_match seen = Some (k, pids) → (k < length seen)%nat.
Proof.
  revert k. induction seen as [|[|p ps] seen IH]; intros k; cbn.
  - discriminate.
  - destruct (first_match seen) as [[k' pids']|]; [|discriminate].
    cbn. intros [= <- <-]. specialize (IH k' eq_refl). lia.
  - intros [= <- <-]. lia.
Qed.

Lemma polled_length (timeout : Instant) (readings : list Q)
    (states : list (list positive)) :
  (length (polled timeout readings states) ≤ length readings)%nat.
Proof.
  revert states. induction readings as [|t later IH]; intros states; [done|].
  cbn [polled]. destruct (before (At t) timeout); cbn; [|lia].
  specialize (IH (tl states)). lia.
Qed.

Lemma lookups_after_lookups (n used : nat) (process_name : string) (w : World) :
  lookups (trace (after_lookups n used process_name w))
  = (lookups (trace w) ++ replicate n ["pidof"; process_name])%list.
Proof.
  rewrite after_lookups_trace. unfold lookups. rewrite omap_app. f_equal.
  induction n as [|n IH]; [done|]. cbn. by rewrite IH.
Qed.

(** X23: the search for the pid is bounded by the clock.  All its
    lookups are [pidof] on the truncated name, and there are at most as
    many as there are clock readings before the deadline, hence fewer
    than the readings the clock is going to give; the search itself
    touches no file and reads no input. *)
Theorem resolve_pid_bounded (executable : string) (w : World) :
  let r := resolve_pid executable w in
  (∃ n, (n ≤ length (polled_in w))%nat
        ∧ lookups (trace r.2)
          = (lookups (trace w)
             ++ replicate n ["pidof"; take 15 (basename executable)])%list)
  ∧ (length (polled_in w) ≤ pred (length (clock w)))%nat
  ∧ files r.2 = files w
  ∧ stdin r.2 = stdin w.
Proof.
  cbn zeta. rewrite resolve_pid_outcome. cbn zeta.
  split; [|split].
  - destruct (lookup_refused w).
    { exists 0%nat. split; [lia|]. cbn [snd]. apply lookups_after_lookups. }
    destruct (first_match (polled_in w)) as [[k pids]|] eqn:Hfm.
    + apply first_match_bound in Hfm. exists (S k). split; [lia|].
      destruct pids as [|p [|q more]]; cbn [snd]; apply lookups_after_lookups.
    + exists (length (polled_in w)). split; [lia|].
      cbn [snd]. rewrite lookups_log, app_nil_r. apply lookups_after_lookups.
  - unfold polled_in. destruct (clock w) as [|t0 readings]; [done|].
    cbn [length pred]. destruct (pidof_missing w); [cbn; lia|].
    apply polled_length.
  - destruct (lookup_refused w); [done|].
    by destruct (first_match (polled_in w)) as [[k [|p [|q more]]]|].
Qed.

(** ** Failing fetch, and choosing by the printed index *)

(** X24: when the transfer of the helper script fails, the run ends with
    the exception right after the selection: the debugger script is not
    written and nothing is started.  The only file that can have changed
    is the destination [/tmp/winereload.py], which holds what had been
    received when the transfer broke off after the destination was
    opened; no file changes when it failed before that. *)
Theorem fetch_failure_stops (joinpath : string → string → string)
    (c : Catalog) (info : LaunchInfo) (w w0 : World) :
  app_infos c ≠ [] →
  select_configuration (app_infos c) w = (Val info, w0) →
  remote w = None →
  let r := main joinpath c w in
  let w1 := log (Fetch winereload_url winereload_path) w0 in
  r = (Exc URLError,
       match partial w with
       | Some received =>
           set_files (<[winereload_path := received]> (files w)) w1
       | None => w1
       end)
  ∧ files r.2 = match partial w with
                | Some received => <[winereload_path := received]> (files w)
                | None => files w
                end
  ∧ files r.2 !! script_path = files w !! script_path
  ∧ writes (trace r.2) = writes (trace w)
  ∧ popens (trace r.2) = popens (trace w)
  ∧ calls (trace r.2) = calls (trace w).
Proof.
  intros Hinfos Hsel Hnone. cbn zeta.
  destruct (select_configuration_quiet (app_infos c) w)
    as (_ & _ & _ & _ & Hcalls & _).
  rewrite Hsel in Hcalls. cbn [snd] in Hcalls.
  destruct (select_configuration_cases (app_infos c) w)
    as [(info' & typed & Heq)|(r' & w' & Heq & Hr & _)].
  - rewrite Hsel in Heq. injection Heq as <- ->.
    rewrite main_unfold, prepare_outcome.
    destruct (app_infos c) as [|first others]; [done|].
    rewrite Hsel. change (remote (set_stdin typed w)) with (remote w).
    change (partial (set_stdin typed w)) with (partial w).
    change (files (set_stdin typed w)) with (files w).
    rewrite Hnone. cbn zeta.
    destruct (partial w) as [received|]; (split; [done|]); logged; fields;
      rewrite ?lookup_insert_ne by done; by rewrite ?Hcalls.
  - rewrite Hsel in Heq. injection Heq as <- _. by destruct (Hr info).
Qed.

Lemma fetch_failure_stops_witness :
  let w := mkWorld ["Y"] ∅ None Scenario.all_run [] [] ∅ [] (Some "# wine") false in
  let r := main Scenario.joinpath Scenario.one_configuration w in
  r.1 = Exc URLError
  ∧ files r.2 = {[ winereload_path := "# wine" ]}
  ∧ writes (trace r.2) = [].
Proof.
  cbn zeta.
  destruct (fetch_failure_stops Scenario.joinpath Scenario.one_configuration
              Scenario.play
              (mkWorld ["Y"] ∅ None Scenario.all_run [] [] ∅ []
                 (Some "# wine") false)
              (mkWorld ["Y"] ∅ None Scenario.all_run [] [] ∅ []
                 (Some "# wine") false)
              ltac:(discriminate) eq_refl eq_refl)
    as (Hrun & Hfiles & _ & Hwrites & _).
  split; [by rewrite Hrun|]. split; [exact Hfiles | exact Hwrites].
Defined.

Lemma append_empty_r (s : string) : s +:+ "" = s.
Proof.
  induction s as [|c s IH]; [done|].
  change (String c s +:+ "") with (String c (s +:+ "")). by rewrite IH.
Qed.

(** [int()] reads back what [str()] prints for a positive number. *)
Lemma int_of_str_printed (p : positive) :
  int_of_str (str_of_int (Z.pos p)) = Some (Z.pos p).
Proof.
  rewrite str_of_int_pos.
  pose proof (DecimalPos.Unsigned.to_uint_nonnil p) as Hnil.
  destruct (printed_head (Pos.to_uint p) "" Hnil) as (c & s & Hs & Hc).
  rewrite append_empty_r in Hs.
  destruct (digit_is_plain c Hc) as (Hsp & _ & Hminus & Hplus).
  unfold int_of_str, int_of.
  assert (lstrip is_space_bytes (DecimalString.NilEmpty.string_of_uint (Pos.to_uint p))
          = DecimalString.NilEmpty.string_of_uint (Pos.to_uint p)) as ->.
  { rewrite Hs. cbn [lstrip]. by rewrite Hsp. }
  assert (split_sign (DecimalString.NilEmpty.string_of_uint (Pos.to_uint p))
          = (false, DecimalString.NilEmpty.string_of_uint (Pos.to_uint p))) as ->.
  { rewrite Hs. unfold split_sign.
    apply Ascii.eqb_neq in Hminus, Hplus. by rewrite Hminus, Hplus. }
  rewrite <- (append_empty_r (DecimalString.NilEmpty.string_of_uint _)).
  rewrite (scan_digits_printed _ "" I), <- (of_uint_to_uint p).
  by destruct (Pos.to_uint p).
Qed.

(** X25: typing the index printed in front of a candidate selects that
    candidate: with several candidates, the decimal text of [i], for [i]
    below their number, makes the selection return candidate [i], one
    line having been read. *)
Theorem select_configuration_by_index (infos : list LaunchInfo) (i : nat)
    (info : LaunchInfo) (rest : list string) (w : World) :
  (1 < length infos)%nat →
  infos !! i = Some info →
  stdin w = str_of_int (Z.of_nat i) :: rest →
  select_configuration infos w = (Val info, set_stdin rest w).
Proof.
  intros Hlen Hi Hin.
  destruct infos as [|first [|second others]]; [cbn in Hlen; lia ..|].
  rewrite select_configuration_many, Hin.
  assert (int_of_str (str_of_int (Z.of_nat i)) = Some (Z.of_nat i)) as ->.
  { destruct i as [|i]; [reflexivity|].
    cbn [Z.of_nat]. apply int_of_str_printed. }
  rewrite Nat2Z.id, Hi.
  apply lookup_lt_Some in Hi.
  rewrite bool_decide_true by lia. reflexivity.
Qed.

Lemma select_configuration_by_index_witness :
  select_configuration [Scenario.play; Scenario.tools]
    (Scenario.never_appears ["1"; "Y"])
  = (Val Scenario.tools, set_stdin ["Y"] (Scenario.never_appears ["1"; "Y"])).
Proof.
  apply (select_configuration_by_index [Scenario.play; Scenario.tools] 1
           Scenario.tools ["Y"] (Scenario.never_appears ["1"; "Y"]));
    [cbn; lia | reflexivity | reflexivity].
Defined.
